(** * metapages/data-ref: DataRef offload policy and blob conversion

    A shallow embedding of [src/lib/dataref.ts] and [src/lib/dataref-types.ts].

    JavaScript strings are sequences of UTF-16 code units, byte buffers
    ([Uint8Array]) are lists of bytes, the name-to-DataRef object is a
    finite map, and an [async] function is a function to an [outcome]
    (returned value or thrown/rejected error).  Calls of the injected upload
    function are recorded in a log that is threaded through the code. *)

From Stdlib Require Import ZArith NArith Lia String Ascii List.
From Stdlib.Strings Require Import Byte.
From stdpp Require Import gmap list.

Local Open Scope N_scope.

(** ** JavaScript strings, buffers and errors *)

(** A JS string: its UTF-16 code units.  [s.length] is the number of units. *)
Abbreviation jsstring := (list N).

(** A [Uint8Array]. *)
Abbreviation Uint8Array := (list byte).

(** The code units of an ASCII literal. *)
Definition js (s : string) : jsstring := map N_of_ascii (list_ascii_of_string s).

(** [x.length] of a string or array, as a number. *)
Definition len {A : Type} (l : list A) : Z := Z.of_nat (length l).

(** What a call can throw (or a promise reject with). *)
Inductive error : Type :=
| TypeError                    (* property read on null *)
| URIError                     (* encodeURIComponent on a lone surrogate *)
| InvalidCharacterError        (* atob / btoa on a bad character *)
| ThrownString (msg : string)  (* [throw "..."] *)
| External (reason : string).  (* failure of an injected or network call *)

Inductive outcome (A : Type) : Type :=
| Returned (a : A)
| Threw (e : error).
Arguments Returned {A} a.
Arguments Threw {A} e.

(** [outcome] is a monad: the stdpp notation [x ← o; k] sequences calls and
    stops at the first error. *)
#[global] Instance outcome_ret : MRet outcome := fun A a => Returned a.
#[global] Instance outcome_bind : MBind outcome := fun A B k o =>
  match o with
  | Returned a => k a
  | Threw e => Threw e
  end.
#[global] Instance outcome_fmap : FMap outcome := fun A B f o =>
  match o with
  | Returned a => Returned (f a)
  | Threw e => Threw e
  end.

(** ** The runtime's [atob] and [btoa] *)

Module Base64.

(** The base64 alphabet: A-Z, a-z, 0-9, [+], [/]. *)
Definition char_of_sextet (n : N) : N :=
  if n <? 26 then 65 + n
  else if n <? 52 then 97 + (n - 26)
  else if n <? 62 then 48 + (n - 52)
  else if n =? 62 then 43
  else 47.

Definition sextet_of_char (c : N) : option N :=
  if (65 <=? c) && (c <=? 90) then Some (c - 65)
  else if (97 <=? c) && (c <=? 122) then Some (c - 97 + 26)
  else if (48 <=? c) && (c <=? 57) then Some (c - 48 + 52)
  else if c =? 43 then Some 62
  else if c =? 47 then Some 63
  else None.

(** The padding character [=]. *)
Definition pad : N := 61.

(** TAB, LF, FF, CR and SPACE. *)
Definition is_ascii_whitespace (c : N) : bool :=
  (c =? 9) || (c =? 10) || (c =? 12) || (c =? 13) || (c =? 32).

(** Three octets give four sextets; a rest of one or two octets gives two
    or three. *)
Fixpoint sextets (b : list N) : list N :=
  match b with
  | x :: y :: z :: rest =>
      x / 4 :: (x mod 4) * 16 + y / 16 :: (y mod 16) * 4 + z / 64 :: z mod 64
        :: sextets rest
  | [x; y] => [x / 4; (x mod 4) * 16 + y / 16; (y mod 16) * 4]
  | [x] => [x / 4; (x mod 4) * 16]
  | [] => []
  end.

Definition padding (n : nat) : jsstring :=
  match (n mod 3)%nat with
  | 1%nat => [pad; pad]
  | 2%nat => [pad]
  | _ => []
  end.

(** The base64 text of a sequence of octets. *)
Definition text (binstr : jsstring) : jsstring :=
  map char_of_sextet (sextets binstr) ++ padding (length binstr).

(** [btoa]: a binary string (all units below 256) to base64 text. *)
Definition btoa (binstr : jsstring) : outcome jsstring :=
  if forallb (fun c => c <? 256) binstr
  then Returned (text binstr)
  else Threw InvalidCharacterError.

(** Four sextets give three octets; the spare bits of a rest of two or
    three sextets are dropped. *)
Fixpoint octets (sx : list N) : list N :=
  match sx with
  | a :: b :: c :: d :: rest =>
      a * 4 + b / 16 :: (b mod 16) * 16 + c / 4 :: (c mod 4) * 64 + d
        :: octets rest
  | [a; b; c] => [a * 4 + b / 16; (b mod 16) * 16 + c / 4]
  | [a; b] => [a * 4 + b / 16]
  | _ => []
  end.

(** When the length is a multiple of four, one or two trailing [=] are
    removed. *)
Definition remove_padding (data : jsstring) : jsstring :=
  if (length data mod 4 =? 0)%nat then
    match rev data with
    | c1 :: r =>
        if c1 =? pad then
          match r with
          | c2 :: r' => if c2 =? pad then rev r' else rev r
          | [] => rev r
          end
        else data
    | [] => data
    end
  else data.

(** [atob], the forgiving base64 decoder of the runtime: whitespace is
    dropped, padding removed, a length of 1 modulo 4 or a character outside
    the alphabet is an error. *)
Definition atob (data : jsstring) : outcome jsstring :=
  let data := filter (fun c => is_ascii_whitespace c = false) data in
  let data := remove_padding data in
  if (length data mod 4 =? 1)%nat then Threw InvalidCharacterError
  else match mapM sextet_of_char data with
       | Some sx => Returned (octets sx)
       | None => Threw InvalidCharacterError
       end.

End Base64.

(** ** UTF-16 code units to UTF-8 octets *)

Module Utf8.

Definition is_high_surrogate (c : N) : bool := (0xD800 <=? c) && (c <=? 0xDBFF).
Definition is_low_surrogate (c : N) : bool := (0xDC00 <=? c) && (c <=? 0xDFFF).

(** The code points of a string; a surrogate that is not part of a pair
    has none. *)
Fixpoint code_points (s : jsstring) : option (list N) :=
  match s with
  | [] => Some []
  | c :: rest =>
      if is_high_surrogate c then
        match rest with
        | d :: rest' =>
            if is_low_surrogate d
            then cons ((c - 0xD800) * 0x400 + (d - 0xDC00) + 0x10000)
                   <$> code_points rest'
            else None
        | [] => None
        end
      else if is_low_surrogate c then None
      else cons c <$> code_points rest
  end.

(** The UTF-8 octets of one code point. *)
Definition encode_point (cp : N) : list N :=
  if cp <? 0x80 then [cp]
  else if cp <? 0x800 then [0xC0 + cp / 64; 0x80 + cp mod 64]
  else if cp <? 0x10000
       then [0xE0 + cp / 4096; 0x80 + (cp / 64) mod 64; 0x80 + cp mod 64]
  else [0xF0 + cp / 262144; 0x80 + (cp / 4096) mod 64;
        0x80 + (cp / 64) mod 64; 0x80 + cp mod 64].

Definition encode (cps : list N) : list N := flat_map encode_point cps.

End Utf8.

(** ** Unicode, as the standard defines it

    The encoding forms of the Unicode standard, written independently of
    the code above: what it means for octets to be the UTF-8 of a string. *)

Module Unicode.

(** A scalar value: a code point that is not a surrogate. *)
Definition is_scalar (cp : N) : bool :=
  (cp <? 0x110000) && negb ((0xD800 <=? cp) && (cp <=? 0xDFFF)).

(** UTF-16: one unit below U+10000, a surrogate pair from there on. *)
Definition utf16_point (cp : N) : jsstring :=
  if cp <? 0x10000 then [cp]
  else [0xD800 + (cp - 0x10000) / 0x400; 0xDC00 + (cp - 0x10000) mod 0x400].

(** The JS string of a sequence of scalar values. *)
Definition utf16 (cps : list N) : jsstring := flat_map utf16_point cps.

Definition is_continuation (b : N) : bool := (0x80 <=? b) && (b <? 0xC0).

(** UTF-8 decoding: sequences of one to four octets; overlong forms,
    surrogates and values above U+10FFFF are ill-formed. *)
Fixpoint utf8_decode (bs : list N) : option (list N) :=
  match bs with
  | [] => Some []
  | b0 :: bs1 =>
      if b0 <? 0x80 then cons b0 <$> utf8_decode bs1
      else if b0 <? 0xC0 then None
      else if b0 <? 0xE0 then
        match bs1 with
        | b1 :: bs2 =>
            let cp := (b0 - 0xC0) * 64 + (b1 - 0x80) in
            if is_continuation b1 && (0x80 <=? cp)
            then cons cp <$> utf8_decode bs2
            else None
        | [] => None
        end
      else if b0 <? 0xF0 then
        match bs1 with
        | b1 :: b2 :: bs3 =>
            let cp := (b0 - 0xE0) * 4096 + (b1 - 0x80) * 64 + (b2 - 0x80) in
            if is_continuation b1 && is_continuation b2
               && (0x800 <=? cp) && is_scalar cp
            then cons cp <$> utf8_decode bs3
            else None
        | _ => None
        end
      else if b0 <? 0xF8 then
        match bs1 with
        | b1 :: b2 :: b3 :: bs4 =>
            let cp := (b0 - 0xF0) * 262144 + (b1 - 0x80) * 4096
                      + (b2 - 0x80) * 64 + (b3 - 0x80) in
            if is_continuation b1 && is_continuation b2 && is_continuation b3
               && (0x10000 <=? cp) && is_scalar cp
            then cons cp <$> utf8_decode bs4
            else None
        | _ => None
        end
      else None
  end.

End Unicode.

(** ** The [unibabel] package

    [Unibabel.utf8ToBuffer] and [Unibabel.base64ToBuffer] are the two
    functions [dataref.ts] calls; [bufferToBase64] is their encoder, used to
    state round trips. *)

Module Unibabel.

Definition byte_of_N (n : N) : byte :=
  default "000"%byte (Byte.of_N (n mod 256)).

(** [buf[i] = ch.charCodeAt(0)] into a [Uint8Array]: stored modulo 256. *)
Definition binaryStringToBuffer (binstr : jsstring) : Uint8Array :=
  map byte_of_N binstr.

(** [String.fromCharCode(ch)] for every element, joined. *)
Definition bufferToBinaryString (buf : Uint8Array) : jsstring :=
  map Byte.to_N buf.

(** [encodeURIComponent(str)] with every [%XX] turned back into the
    character [0xXX]: the unreserved characters stand for themselves and
    the rest are their UTF-8 octets, so the result is the UTF-8 encoding
    of [str]; a lone surrogate is a [URIError]. *)
Definition utf8ToBinaryString (str : jsstring) : outcome jsstring :=
  match Utf8.code_points str with
  | Some cps => Returned (Utf8.encode cps)
  | None => Threw URIError
  end.

Definition utf8ToBuffer (str : jsstring) : outcome Uint8Array :=
  binstr ← utf8ToBinaryString str; mret (binaryStringToBuffer binstr).

Definition base64ToBuffer (base64 : jsstring) : outcome Uint8Array :=
  binstr ← Base64.atob base64; mret (binaryStringToBuffer binstr).

Definition bufferToBase64 (arr : Uint8Array) : outcome jsstring :=
  Base64.btoa (bufferToBinaryString arr).

End Unibabel.

(** ** JavaScript values *)

(** The values a [DataRef] carries: JSON values and byte buffers.  Numbers
    are the integral ones. *)
Unset Elimination Schemes.
Inductive jsvalue : Type :=
| JNull
| JBool (b : bool)
| JNum (n : Z)
| JStr (s : jsstring)
| JArr (items : list jsvalue)
| JObj (props : list (jsstring * jsvalue))
| JBytes (buf : Uint8Array).
Set Elimination Schemes.

(** Truthiness, as [&&], [||], [!] and [if] test it. *)
Definition truthy (v : jsvalue) : bool :=
  match v with
  | JNull => false
  | JBool b => b
  | JNum n => negb (n =? 0)%Z
  | JStr s => match s with [] => false | _ => true end
  | JArr _ | JObj _ | JBytes _ => true
  end.

(** An own property of an object, by name. *)
Fixpoint own_property (key : jsstring) (props : list (jsstring * jsvalue))
  : option jsvalue :=
  match props with
  | [] => None
  | (k, v) :: rest => if decide (k = key) then Some v else own_property key rest
  end.

(** [v.length]: [None] is [undefined]; reading a property of [null] throws. *)
Definition get_length (v : jsvalue) : outcome (option jsvalue) :=
  match v with
  | JNull => Threw TypeError
  | JBool _ | JNum _ => Returned None
  | JStr s => Returned (Some (JNum (len s)))
  | JArr items => Returned (Some (JNum (len items)))
  | JBytes buf => Returned (Some (JNum (len buf)))
  | JObj props => Returned (own_property (js "length") props)
  end.

(** What the code takes from the language runtime and from packages other
    than [unibabel]. *)
Class Runtime : Type := {
  (** [objectHash.sha1(x)] *)
  sha1 : jsvalue -> jsstring;
  (** [JSON.stringify(x)] for a truthy [x] *)
  stringify : jsvalue -> jsstring;
  (** the string a value that is not a string is converted to *)
  ToString : jsvalue -> jsstring;
  (** [x > n] for an [x] that is an array, an object or a string *)
  coerced_gt : jsvalue -> Z -> bool;
  (** [fetch(url, {method: "GET", redirect: "follow", ...})] followed by
      [response.arrayBuffer()] *)
  fetch_arrayBuffer : jsvalue -> outcome Uint8Array
}.

(** ** [dataref-types.ts] *)

(** [enum DataRefType]: a way of getting a blob of data. *)
Module DataRefType.
Inductive t : Type := base64 | url | utf8 | json | hash.
End DataRefType.

(** [type DataRef<T>]: [hash] and [type] are optional. *)
Record DataRef : Type := {
  value : jsvalue;
  hash : option jsstring;
  type : option DataRefType.t
}.

(** [export const DataRefTypeDefault = DataRefType.base64] *)
Definition DataRefTypeDefault : DataRefType.t := DataRefType.base64.

(** [type InputsRefs]: name to DataRef. *)
Abbreviation InputsRefs := (gmap jsstring DataRef).

(** [type UploadFunc]: the argument is [{value: bytes}].  A call answers
    with a DataRef or fails.  Here the answer is read as a value: what is
    said of a call with this type holds when every answer is an object of
    its own; [ByReference] below follows the objects themselves. *)
Abbreviation UploadFunc := (Uint8Array -> outcome DataRef).

(** ** [dataref.ts] *)

Definition ENV_VAR_DATA_ITEM_LENGTH_MAX : Z := 200.

Module DataMode.
Inductive t : Type := dataref | base64 | utf8 | json.
End DataMode.

Definition DataModeDefault : DataMode.t := DataMode.base64.

(** [new Blob([buffer])] *)
Record Blob : Type := { blob_bytes : Uint8Array }.

(** [remoteRef.hash = h] *)
Definition set_hash (h : option jsstring) (d : DataRef) : DataRef :=
  {| value := value d; hash := h; type := type d |}.

(** [dataRef.type || DataRefTypeDefault]: every member of the enum is a
    non-empty string, so only an absent [type] takes the default. *)
Definition effective_type (d : DataRef) : DataRefType.t :=
  match type d with
  | Some t => t
  | None => DataRefTypeDefault
  end.

Section Dataref.

Context {rt : Runtime}.

(** [JSON.stringify(v)]: the text of the falsy values is fixed. *)
Definition JSON_stringify (v : jsvalue) : jsstring :=
  match v with
  | JNull => js "null"
  | JBool false => js "false"
  | JNum 0 => js "0"
  | JStr [] => [34; 34]
  | _ => stringify v
  end.

(** A value passed where the callee reads a string. *)
Definition as_string (v : jsvalue) : jsstring :=
  match v with
  | JStr s => s
  | _ => ToString v
  end.

(** [x > n] where [x] is the result of a property read. *)
Definition gt (x : option jsvalue) (n : Z) : bool :=
  match x with
  | None => false                      (* undefined is NaN *)
  | Some (JNum k) => (n <? k)%Z
  | Some JNull => (n <? 0)%Z
  | Some (JBool b) => (n <? (if b then 1 else 0))%Z
  | Some v => coerced_gt v n
  end.

(** [v.length > ENV_VAR_DATA_ITEM_LENGTH_MAX] *)
Definition length_exceeds_max (v : jsvalue) : outcome bool :=
  l ← get_length v; mret (gt l ENV_VAR_DATA_ITEM_LENGTH_MAX).

(** The [switch] of [copyLargeBlobsToRemote]: the bytes to upload, when
    the entry is too big. *)
Definition uint8ArrayIfBig (d : DataRef) : outcome (option Uint8Array) :=
  match effective_type d with
  | DataRefType.hash => Returned None
  | DataRefType.json =>
      if truthy (value d) then
        let jsonString := JSON_stringify (value d) in
        if (ENV_VAR_DATA_ITEM_LENGTH_MAX <? len jsonString)%Z
        then Some <$> Unibabel.utf8ToBuffer jsonString
        else Returned None
      else Returned None
  | DataRefType.utf8 =>
      big ← length_exceeds_max (value d);
      if big : bool then Some <$> Unibabel.utf8ToBuffer (as_string (value d))
      else Returned None
  | DataRefType.base64 | DataRefType.url =>
      big ← length_exceeds_max (value d);
      if big : bool then Some <$> Unibabel.base64ToBuffer (as_string (value d))
      else Returned None
  end.

(** The state of one call of [copyLargeBlobsToRemote]: the [result]
    object, the calls of [upload] made so far (with the name of the entry
    each was made for), the errors thrown before the first [await] and the
    rejections of [upload]. *)
Record progress : Type := {
  result : InputsRefs;
  uploads : list (jsstring * Uint8Array);
  thrown : list error;
  rejected : list error
}.

Definition start : progress :=
  {| result := ∅; uploads := []; thrown := []; rejected := [] |}.

(** The body of the [async (name) => ...] callback, on values: the entry
    installed is the answer of [upload] with the computed hash, and the
    names are the keys of a map (a property [__proto__], whose assignment
    sets the prototype, is told apart in [ByReference.assign]). *)
Definition callback (inputs_name : DataRef) (upload : UploadFunc)
    (st : progress) (name : jsstring) : progress :=
  match uint8ArrayIfBig inputs_name with
  | Threw e =>
      {| result := result st; uploads := uploads st;
         thrown := thrown st ++ [e]; rejected := rejected st |}
  | Returned (Some buf) =>
      let hash := sha1 (JBytes buf) in
      match upload buf with
      | Returned remoteRef =>
          {| result := <[name := set_hash (Some hash) remoteRef]> (result st);
             uploads := uploads st ++ [(name, buf)];
             thrown := thrown st; rejected := rejected st |}
      | Threw e =>
          {| result := result st; uploads := uploads st ++ [(name, buf)];
             thrown := thrown st; rejected := rejected st ++ [e] |}
      end
  | Returned None =>
      {| result := <[name := inputs_name]> (result st); uploads := uploads st;
         thrown := thrown st; rejected := rejected st |}
  end.

(** [Object.keys(inputs).map(callback)]: every callback runs, whether or
    not an earlier one failed. *)
Definition run (entries : list (jsstring * DataRef)) (upload : UploadFunc)
  : progress :=
  foldl (fun st '(name, d) => callback d upload st name) start entries.

(** [await Promise.all(...)] rejects when a callback failed: with an error
    thrown before the first [await] when there is one, else with a
    rejection of [upload]. *)
Definition settle (st : progress) : outcome InputsRefs :=
  match thrown st ++ rejected st with
  | [] => Returned (result st)
  | e :: _ => Threw e
  end.

(** The result, and the calls of [upload] that were made. *)
Definition copyLargeBlobsToRemote (inputs : option InputsRefs)
    (upload : UploadFunc)
  : outcome (option InputsRefs) * list (jsstring * Uint8Array) :=
  match inputs with
  | None => (Returned None, [])
  | Some inputs =>
      let st := run (map_to_list inputs) upload in
      (Some <$> settle st, uploads st)
  end.

(** The [options] of [base64ToDataRef]. *)
Record Options : Type := {
  upload : jsstring -> outcome DataRef;
  ignoreHash : option bool;
  maxLengthUnmodified : option Z
}.

(** The result, and the calls of [upload] that were made. *)
Definition base64ToDataRef (value : jsstring) (options : Options)
  : outcome DataRef * list jsstring :=
  let upload := upload options in
  let ignoreHash := default false (ignoreHash options) in
  let maxLengthUnmodified := default 200%Z (maxLengthUnmodified options) in
  if (len value <? maxLengthUnmodified)%Z then
    (Returned {| value := JStr value;
                 type := Some DataRefType.base64;
                 hash := if ignoreHash then None
                         else Some (sha1 (JStr value)) |}, [])
  else
    (remoteRef ← upload value;
     mret (if negb ignoreHash
           then set_hash (Some (sha1 (JStr value))) remoteRef
           else remoteRef),
     [value]).

Definition fetchBlobFromUrl (url : jsvalue) : outcome Uint8Array :=
  fetch_arrayBuffer url.

Definition dataRefToBlob (dataRef : DataRef) : outcome Blob :=
  match effective_type dataRef with
  | DataRefType.hash => Threw (ThrownString "Cannot crate blob from type=hash")
  | DataRefType.json =>
      Build_Blob <$> Unibabel.utf8ToBuffer (JSON_stringify (value dataRef))
  | DataRefType.utf8 =>
      Build_Blob <$> Unibabel.utf8ToBuffer (as_string (value dataRef))
  | DataRefType.url =>
      Build_Blob <$> fetchBlobFromUrl (value dataRef)
  | DataRefType.base64 =>
      Build_Blob <$> Unibabel.base64ToBuffer (as_string (value dataRef))
  end.

End Dataref.

(** ** A runtime to compute with

    A stand-in for the packages the code is linked with: the digest is the
    content itself with a tag for its kind (so that distinct contents have
    distinct digests), strings are serialised in quotes, and nothing can be
    fetched. *)
Definition sample_runtime : Runtime := {|
  sha1 := fun v =>
    match v with
    | JStr s => 115 :: s
    | JBytes buf => 98 :: Unibabel.bufferToBinaryString buf
    | _ => []
    end;
  stringify := fun v =>
    match v with
    | JStr s => 34 :: s ++ [34]
    | JBool true => js "true"
    | _ => js "{}"
    end;
  ToString := fun _ => js "[object Object]";
  coerced_gt := fun _ _ => false;
  fetch_arrayBuffer := fun _ => Threw (External "offline")
|}.

(** An upload that stores nothing and answers with a reference by hash,
    carrying a digest of its own. *)
Definition sample_upload : UploadFunc := fun buf =>
  Returned {| value := JStr (js "remote");
              hash := Some (js "digest-of-the-store");
              type := Some DataRefType.hash |}.


(** ** Vocabulary of the properties *)

Section Vocabulary.

Context {rt : Runtime}.

(** The size of an inline payload: the length of the string for [base64]
    and [utf8], the length of the JSON text for [json]. *)
Definition inline_size (d : DataRef) : option Z :=
  match effective_type d with
  | DataRefType.json => Some (len (JSON_stringify (value d)))
  | DataRefType.utf8 | DataRefType.base64 =>
      match value d with
      | JStr s => Some (len s)
      | _ => None
      end
  | DataRefType.url | DataRefType.hash => None
  end.

(** The bytes an inline payload stands for. *)
Definition decoded_bytes (d : DataRef) : outcome Uint8Array :=
  match effective_type d with
  | DataRefType.json => Unibabel.utf8ToBuffer (JSON_stringify (value d))
  | DataRefType.utf8 => Unibabel.utf8ToBuffer (as_string (value d))
  | _ => Unibabel.base64ToBuffer (as_string (value d))
  end.

(** The callback of an entry fails: the [switch] throws, or the upload it
    asks for does. *)
Definition entry_fails (upload : UploadFunc) (d : DataRef) : Prop :=
  (exists e, uint8ArrayIfBig d = Threw e) \/
  (exists buf e, uint8ArrayIfBig d = Returned (Some buf) /\ upload buf = Threw e).

(** The buffers [upload] was called with for the entry [name]. *)
Definition calls_for (name : jsstring) (calls : list (jsstring * Uint8Array))
  : list Uint8Array :=
  (filter (fun c => c.1 = name) calls).*2.

(** The effect of one callback, field by field: what it stores under the
    name of its entry, the upload it asks for, what it throws, and the
    rejection it meets. *)
Definition installed (upload : UploadFunc) (d : DataRef) : option DataRef :=
  match uint8ArrayIfBig d with
  | Returned None => Some d
  | Returned (Some buf) =>
      match upload buf with
      | Returned remoteRef => Some (set_hash (Some (sha1 (JBytes buf))) remoteRef)
      | Threw _ => None
      end
  | Threw _ => None
  end.

Definition requests (d : DataRef) : list Uint8Array :=
  match uint8ArrayIfBig d with
  | Returned (Some buf) => [buf]
  | _ => []
  end.

Definition throws (d : DataRef) : list error :=
  match uint8ArrayIfBig d with
  | Threw e => [e]
  | _ => []
  end.

Definition rejections (upload : UploadFunc) (d : DataRef) : list error :=
  match uint8ArrayIfBig d with
  | Returned (Some buf) =>
      match upload buf with
      | Threw e => [e]
      | Returned _ => []
      end
  | _ => []
  end.

Definition install (upload : UploadFunc) (m : InputsRefs)
    (entry : jsstring * DataRef) : InputsRefs :=
  match installed upload entry.2 with
  | Some r => <[entry.1 := r]> m
  | None => m
  end.

End Vocabulary.

(** ** [copyLargeBlobsToRemote] on objects

    The code handles objects, not their contents: [result[name] =
    inputs[name]] stores the object the input holds, [remoteRef.hash = hash]
    writes into the very object [upload] answered with, and [result] is an
    object created as [{}], which inherits the [__proto__] accessor.  Here
    the objects live in a store and are handled by reference, the input is
    the list of its own properties in the order of [Object.keys], and the
    callbacks run as they do under [Promise.all]: each to its [await] while
    [map] goes through the keys, and from its [await] on afterwards.  The
    answers of [upload] are taken to arrive in the order of the calls, and
    an answer to depend on the bytes only. *)

Module ByReference.

(** A reference, and the DataRef objects of the store.  A reference without
    an object stands for a value that is no object: the code throws a
    [TypeError] when it reads [type] or [value.length] from it or writes
    [hash] to it. *)
Abbreviation ref := nat.
Abbreviation store := (gmap nat DataRef).

(** An object with DataRefs as properties: its own properties, in the order
    of [Object.keys]. *)
Abbreviation properties := (list (jsstring * nat)).

Definition proto_key : jsstring := js "__proto__".

(** The [result] object: its own properties and its prototype ([None] is
    [Object.prototype], as for [{}]). *)
Record object : Type := {
  own : gmap jsstring ref;
  proto : option ref
}.

Definition empty_object : object := {| own := ∅; proto := None |}.

(** [o[name] = v] for an object [v]: under the name [__proto__] the setter
    inherited from [Object.prototype] makes [v] the prototype of [o] and no
    property is created; any other name becomes an own property. *)
Definition assign (o : object) (name : jsstring) (v : ref) : object :=
  if decide (name = proto_key)
  then {| own := own o; proto := Some v |}
  else {| own := <[name := v]> (own o); proto := proto o |}.

(** [o[name]], for the names that are assigned: [__proto__] reads the
    prototype. *)
Definition get (o : object) (name : jsstring) : option ref :=
  if decide (name = proto_key) then proto o else own o !! name.

(** What a call of [upload] does: it returns a promise that resolves with
    an object or rejects, or it throws at once. *)
Inductive reply : Type :=
| Resolves (remoteRef : ref)
| Rejects (e : error)
| Throws (e : error).

Abbreviation Upload := (Uint8Array -> reply).

(** The state of a call: the [result] object, the store, the calls of
    [upload] made, the callbacks waiting at their [await] (name, computed
    hash, and what they wait for), the errors thrown before an [await], and
    those met after it. *)
Record state : Type := {
  result : object;
  heap : store;
  calls : list (jsstring * Uint8Array);
  awaiting : list (jsstring * jsstring * reply);
  thrown : list error;
  rejected : list error
}.

Definition start (h : store) : state :=
  {| result := empty_object; heap := h; calls := []; awaiting := [];
     thrown := []; rejected := [] |}.

(** What the call leaves: what it returns or throws, the store, and the
    calls of [upload]. *)
Record completion : Type := {
  returned : outcome (option object);
  objects : store;
  called : list (jsstring * Uint8Array)
}.

Section Callbacks.

Context {rt : Runtime}.

(** The callback up to its [await]. *)
Definition callback (upload : Upload) (st : state) (entry : jsstring * ref)
  : state :=
  let '(name, inputs_name) := entry in
  match heap st !! inputs_name with
  | None =>
      {| result := result st; heap := heap st; calls := calls st;
         awaiting := awaiting st; thrown := thrown st ++ [TypeError];
         rejected := rejected st |}
  | Some d =>
      match uint8ArrayIfBig d with
      | Threw e =>
          {| result := result st; heap := heap st; calls := calls st;
             awaiting := awaiting st; thrown := thrown st ++ [e];
             rejected := rejected st |}
      | Returned (Some buf) =>
          let hash := sha1 (JBytes buf) in
          match upload buf with
          | Throws e =>
              {| result := result st; heap := heap st;
                 calls := calls st ++ [(name, buf)];
                 awaiting := awaiting st; thrown := thrown st ++ [e];
                 rejected := rejected st |}
          | answer =>
              {| result := result st; heap := heap st;
                 calls := calls st ++ [(name, buf)];
                 awaiting := awaiting st ++ [(name, hash, answer)];
                 thrown := thrown st; rejected := rejected st |}
          end
      | Returned None =>
          {| result := assign (result st) name inputs_name; heap := heap st;
             calls := calls st; awaiting := awaiting st;
             thrown := thrown st; rejected := rejected st |}
      end
  end.

(** The callback from its [await] on: [remoteRef.hash = hash] and
    [result[name] = remoteRef]. *)
Definition resume (st : state) (waiting : jsstring * jsstring * reply) : state :=
  let '(name, hash, answer) := waiting in
  match answer with
  | Resolves remoteRef =>
      match heap st !! remoteRef with
      | Some o =>
          {| result := assign (result st) name remoteRef;
             heap := <[remoteRef := set_hash (Some hash) o]> (heap st);
             calls := calls st; awaiting := awaiting st;
             thrown := thrown st; rejected := rejected st |}
      | None =>
          {| result := result st; heap := heap st; calls := calls st;
             awaiting := awaiting st; thrown := thrown st;
             rejected := rejected st ++ [TypeError] |}
      end
  | Rejects e =>
      {| result := result st; heap := heap st; calls := calls st;
         awaiting := awaiting st; thrown := thrown st;
         rejected := rejected st ++ [e] |}
  | Throws _ => st
  end.

(** [Object.keys(inputs).map(...)], then the callbacks that wait, then what
    [await Promise.all(...)] gives.  The callbacks that wait go on in the
    order of their calls of [upload]; the properties below that speak of the
    store hold for any order. *)
Definition copyLargeBlobsToRemote (inputs : option properties) (h : store)
    (upload : Upload) : completion :=
  match inputs with
  | None => {| returned := Returned None; objects := h; called := [] |}
  | Some inputs =>
      let st := foldl (callback upload) (start h) inputs in
      let st := foldl resume st (awaiting st) in
      {| returned := match thrown st ++ rejected st with
                     | [] => Returned (Some (result st))
                     | e :: _ => Threw e
                     end;
         objects := heap st;
         called := calls st |}
  end.

End Callbacks.

End ByReference.

(** ** Vocabulary of the properties of the call on objects *)

Module ByReferenceTerms.

Section Terms.

Context {rt : Runtime}.

(** The callback of an entry fails: the entry is no object, the [switch]
    throws, or the upload it asks for throws, rejects or answers with
    something that is no object. *)
Definition entry_fails (h : ByReference.store) (upload : ByReference.Upload)
    (inputs_name : nat) : Prop :=
  match h !! inputs_name with
  | None => True
  | Some d =>
      match uint8ArrayIfBig d with
      | Threw _ => True
      | Returned None => False
      | Returned (Some buf) =>
          match upload buf with
          | ByReference.Resolves remoteRef => h !! remoteRef = None
          | _ => True
          end
      end
  end.

(** What is assigned under the name of an entry when its callback does not
    fail: the object of the entry, or the one [upload] answered with. *)
Definition settled (h : ByReference.store) (upload : ByReference.Upload)
    (entry : jsstring * nat) : option nat :=
  match h !! entry.2 with
  | None => None
  | Some d =>
      match uint8ArrayIfBig d with
      | Threw _ => None
      | Returned None => Some entry.2
      | Returned (Some buf) =>
          match upload buf with
          | ByReference.Resolves remoteRef =>
              match h !! remoteRef with
              | Some _ => Some remoteRef
              | None => None
              end
          | _ => None
          end
      end
  end.

(** The effect of a callback up to its [await], field by field. *)
Definition kept (h : ByReference.store) (entry : jsstring * nat)
  : list (jsstring * nat) :=
  match h !! entry.2 with
  | Some d =>
      match uint8ArrayIfBig d with
      | Returned None => [entry]
      | _ => []
      end
  | None => []
  end.

Definition asked (h : ByReference.store) (entry : jsstring * nat)
  : list (jsstring * Uint8Array) :=
  match h !! entry.2 with
  | Some d =>
      match uint8ArrayIfBig d with
      | Returned (Some buf) => [(entry.1, buf)]
      | _ => []
      end
  | None => []
  end.

Definition waits (h : ByReference.store) (upload : ByReference.Upload)
    (entry : jsstring * nat) : list (jsstring * jsstring * ByReference.reply) :=
  match h !! entry.2 with
  | Some d =>
      match uint8ArrayIfBig d with
      | Returned (Some buf) =>
          match upload buf with
          | ByReference.Throws _ => []
          | answer => [(entry.1, sha1 (JBytes buf), answer)]
          end
      | _ => []
      end
  | None => []
  end.

Definition throws (h : ByReference.store) (upload : ByReference.Upload)
    (entry : jsstring * nat) : list error :=
  match h !! entry.2 with
  | Some d =>
      match uint8ArrayIfBig d with
      | Threw e => [e]
      | Returned (Some buf) =>
          match upload buf with
          | ByReference.Throws e => [e]
          | _ => []
          end
      | Returned None => []
      end
  | None => [TypeError]
  end.

(** The effect of a callback from its [await] on, field by field. *)
Definition resolved (h : ByReference.store)
    (waiting : jsstring * jsstring * ByReference.reply) : list (jsstring * nat) :=
  match waiting.2 with
  | ByReference.Resolves remoteRef =>
      match h !! remoteRef with
      | Some _ => [(waiting.1.1, remoteRef)]
      | None => []
      end
  | _ => []
  end.

Definition rejections (h : ByReference.store)
    (waiting : jsstring * jsstring * ByReference.reply) : list error :=
  match waiting.2 with
  | ByReference.Resolves remoteRef =>
      match h !! remoteRef with
      | Some _ => []
      | None => [TypeError]
      end
  | ByReference.Rejects e => [e]
  | ByReference.Throws _ => []
  end.

Definition write (h : ByReference.store)
    (waiting : jsstring * jsstring * ByReference.reply) : ByReference.store :=
  match waiting.2 with
  | ByReference.Resolves remoteRef =>
      match h !! remoteRef with
      | Some o => <[remoteRef := set_hash (Some waiting.1.2) o]> h
      | None => h
      end
  | _ => h
  end.

(** The hash last written into an object, if any was. *)
Definition last_hash (acc : option jsstring) (l : nat)
    (waiting : jsstring * jsstring * ByReference.reply) : option jsstring :=
  match waiting.2 with
  | ByReference.Resolves remoteRef =>
      if decide (remoteRef = l) then Some waiting.1.2 else acc
  | _ => acc
  end.

Definition written (ws : list (jsstring * jsstring * ByReference.reply)) (l : nat)
  : option jsstring :=
  foldl (fun acc w => last_hash acc l w) None ws.

(** Assignments to the [result] object, one after the other. *)
Definition assign_all (o : ByReference.object) (xs : list (jsstring * nat))
  : ByReference.object :=
  foldl (fun o x => ByReference.assign o x.1 x.2) o xs.

(** The assignments of a whole call: of the callbacks that do not wait,
    then of those that do. *)
Definition assignments (h : ByReference.store) (upload : ByReference.Upload)
    (inputs : ByReference.properties) : list (jsstring * nat) :=
  flat_map (kept h) inputs
  ++ flat_map (resolved h) (flat_map (waits h upload) inputs).

(** The same references have objects in two stores: writing a hash neither
    creates nor removes an object. *)
Definition same_objects (h h' : ByReference.store) : Prop :=
  forall l, h' !! l = None <-> h !! l = None.

End Terms.

End ByReferenceTerms.

(** ** Sample inputs *)

(** [n] times the letter [a]. *)
Definition letters (n : nat) : jsstring := repeat 97 n.

(** A string of 201 units that starts as a URL does. *)
Definition long_url : jsstring := js "https://" ++ letters 193.

(** The reference [sample_upload] answers with. *)
Definition remote_ref : DataRef :=
  {| value := JStr (js "remote");
     hash := Some (js "digest-of-the-store");
     type := Some DataRefType.hash |}.

(** An upload that always fails. *)
Definition failing_upload : UploadFunc := fun _ => Threw (External "upload failed").

(** [{value: {a: 1}}], with no [type]. *)
Definition object_without_type : DataRef :=
  {| value := JObj [(js "a", JNum 1)]; hash := None; type := None |}.

(** [{value: s, type: t}] *)
Definition inline (t : DataRefType.t) (s : jsstring) : DataRef :=
  {| value := JStr s; hash := None; type := Some t |}.

(** Options with a threshold of 4 and an upload that answers [remote_ref]. *)
Definition threshold_4 : Options :=
  {| upload := fun _ => Returned remote_ref;
     ignoreHash := None;
     maxLengthUnmodified := Some 4%Z |}.

(** Options with no threshold given. *)
Definition default_options : Options :=
  {| upload := fun _ => Returned remote_ref;
     ignoreHash := None;
     maxLengthUnmodified := None |}.

(** The bytes of [hello]. *)
Definition hello : Uint8Array := ["h"; "e"; "l"; "l"; "o"]%byte.

(** [{a: {value: "x", type: utf8}, b: {value: <201 letters>, type: utf8}}] *)
Definition scenario : InputsRefs :=
  <[js "a" := inline DataRefType.utf8 (js "x")]>
    {[ js "b" := inline DataRefType.utf8 (letters 201) ]}.




(** One entry of type [utf8] with a value of exactly 200 letters. *)
Definition boundary_scenario : InputsRefs :=
  {[ js "b" := inline DataRefType.utf8 (letters 200) ]}.

(** What [scenario] becomes with [sample_upload]: [a] as it was, [b]
    replaced by the uploaded reference. *)
Definition scenario_result : InputsRefs :=
  <[js "a" := inline DataRefType.utf8 (js "x")]>
    {[ js "b" :=
         {| value := JStr (js "remote");
            hash := Some (@sha1 sample_runtime
                            (JBytes (Unibabel.binaryStringToBuffer (letters 201))));
            type := Some DataRefType.hash |} ]}.


(** One entry of type [utf8] with a one-letter value. *)
Definition small_scenario : InputsRefs :=
  {[ js "a" := inline DataRefType.utf8 (js "x") ]}.



(** One entry of type [utf8] whose value is [null]. *)
Definition null_scenario : InputsRefs :=
  {[ js "n" := {| value := JNull; hash := None; type := Some DataRefType.utf8 |} ]}.


(** Options with a threshold of 4 and an upload that fails. *)
Definition failing_options : Options :=
  {| upload := fun _ => Threw (External "upload failed");
     ignoreHash := None;
     maxLengthUnmodified := Some 4%Z |}.

(** Options with a threshold of 4 that ask for no hash. *)
Definition unhashed_options : Options :=
  {| upload := fun _ => Returned remote_ref;
     ignoreHash := Some true;
     maxLengthUnmodified := Some 4%Z |}.




(** One entry of type [base64] whose value, 201 units, has a colon. *)
Definition malformed_scenario : InputsRefs :=
  {[ js "m" := inline DataRefType.base64 long_url ]}.

(** The scalar values of [h], e-acute, the euro sign and an emoji: one, two,
    three and four octets of UTF-8; the last a surrogate pair of UTF-16. *)
Definition accented : list N := [0x68; 0xE9; 0x20AC; 0x1F600].

(** Objects to compute with: three inline references (1 small, 2 and 3 too
    big, with different contents), a [url] reference that is no base64 (4),
    and two references of the store (9 and 10). *)
Definition sample_heap : ByReference.store :=
  <[1%nat := inline DataRefType.utf8 (js "x")]>
    (<[2%nat := inline DataRefType.utf8 (letters 201)]>
       (<[3%nat := inline DataRefType.utf8 (repeat 98 201)]>
          (<[4%nat := inline DataRefType.url long_url]>
             (<[9%nat := remote_ref]> {[ 10%nat := remote_ref ]})))).

(** An upload that answers with object 9 for bytes that start with the
    letter [a] and with object 10 for others. *)
Definition fresh_upload : ByReference.Upload := fun buf =>
  match buf with
  | "a"%byte :: _ => ByReference.Resolves 9
  | _ => ByReference.Resolves 10
  end.

(** An upload that answers every call with the same object. *)
Definition shared_upload : ByReference.Upload := fun _ => ByReference.Resolves 9.


(** [{p: <object 2>, q: <object 3>}]: two entries that are too big. *)
Definition two_big : ByReference.properties :=
  [(js "p", 2%nat); (js "q", 3%nat)].



(** The digest [sample_runtime] gives the bytes of 201 letters. *)
Definition digest_201 : jsstring :=
  @sha1 sample_runtime (JBytes (Unibabel.binaryStringToBuffer (letters 201))).

(** ** Tactics *)

(** [lia] with division and remainder by a constant. *)
Ltac Zify.zify_post_hook ::= Z.to_euclidean_division_equations.

(** Boolean comparisons on [N] in the context, as propositions. *)
Ltac props :=
  repeat match goal with
    | H : _ && _ = true |- _ => apply andb_true_iff in H as [? ?]
    | H : _ || _ = false |- _ => apply orb_false_iff in H as [? ?]
    | H : (_ <? _) = true |- _ => apply N.ltb_lt in H
    | H : (_ <? _) = false |- _ => apply N.ltb_ge in H
    | H : (_ <=? _) = true |- _ => apply N.leb_le in H
    | H : (_ <=? _) = false |- _ => apply N.leb_gt in H
    | H : (_ =? _) = true |- _ => apply N.eqb_eq in H
    | H : (_ =? _) = false |- _ => apply N.eqb_neq in H
    end.

Ltac split_bools :=
  repeat match goal with
    | H : _ && _ = false |- _ => apply andb_false_iff in H as [?|?]
    | H : _ || _ = true |- _ => apply orb_true_iff in H as [?|?]
    end.

(** * Properties *)

(** ** Base64 round trip *)

Module Base64Facts.
Import Base64.

(** Induction over a list three elements at a time. *)
Lemma list_ind3 {A : Type} (P : list A -> Prop) :
  P [] -> (forall x, P [x]) -> (forall x y, P [x; y]) ->
  (forall x y z l, P l -> P (x :: y :: z :: l)) ->
  forall l, P l.
Proof.
  intros H0 H1 H2 H3 l.
  assert (Hn : forall n l, (length l <= n)%nat -> P l).
  { induction n as [|n IH]; intros k Hk.
    - destruct k; [exact H0 | simpl in Hk; lia].
    - destruct k as [|x [|y [|z k]]]; auto.
      apply H3, IH. simpl in Hk. lia. }
  apply (Hn (length l)). lia.
Qed.

Lemma sextet_of_char_of_sextet n :
  n < 64 -> sextet_of_char (char_of_sextet n) = Some n.
Proof.
  intros Hn. unfold sextet_of_char, char_of_sextet.
  repeat case_match; props; split_bools; props; try (f_equal; lia); lia.
Qed.

Lemma char_of_sextet_not_pad n : (char_of_sextet n =? pad) = false.
Proof.
  unfold char_of_sextet, pad. apply N.eqb_neq.
  repeat case_match; props; lia.
Qed.

Lemma char_of_sextet_not_space n : is_ascii_whitespace (char_of_sextet n) = false.
Proof.
  unfold is_ascii_whitespace, char_of_sextet.
  repeat (apply orb_false_iff; split); apply N.eqb_neq;
    repeat case_match; props; lia.
Qed.

Lemma sextets_bounded b :
  Forall (fun x => x < 256) b -> Forall (fun x => x < 64) (sextets b).
Proof.
  induction b as [|x|x y|x y z l IH] using list_ind3; intros Hb; simpl;
    repeat match goal with
      | H : Forall _ (_ :: _) |- _ => apply Forall_cons in H as [? ?]
      end;
    repeat (apply Forall_cons; split); auto; cbv beta in *; lia.
Qed.

Lemma octets_sextets b :
  Forall (fun x => x < 256) b -> octets (sextets b) = b.
Proof.
  induction b as [|x|x y|x y z l IH] using list_ind3; intros Hb; simpl;
    repeat match goal with
      | H : Forall _ (_ :: _) |- _ => apply Forall_cons in H as [? ?]
      end;
    [reflexivity | | | rewrite IH by assumption];
    cbv beta in *; repeat (f_equal; try lia).
Qed.

Lemma padding_step n : padding (S (S (S n))) = padding n.
Proof.
  unfold padding.
  replace (S (S (S n))) with (n + 1 * 3)%nat by lia.
  now rewrite Nat.Div0.mod_add.
Qed.

Lemma padding_cases n :
  padding n = [] \/ padding n = [pad] \/ padding n = [pad; pad].
Proof. unfold padding. repeat case_match; auto. Qed.

Lemma sextets_length b :
  (length (sextets b) mod 4 <> 1)%nat /\
  ((length (sextets b) + length (padding (length b))) mod 4 = 0)%nat.
Proof.
  induction b as [|x|x y|x y z l [IH1 IH2]] using list_ind3;
    [simpl; split; lia ..|].
  change (length (x :: y :: z :: l)) with (S (S (S (length l)))).
  rewrite padding_step. simpl length.
  set (a := length (sextets l)) in *. set (c := length (padding (length l))) in *.
  replace (S (S (S (S a)))) with (a + 1 * 4)%nat by lia.
  replace (a + 1 * 4 + c)%nat with (a + c + 1 * 4)%nat by lia.
  now rewrite !Nat.Div0.mod_add.
Qed.

Lemma remove_padding_app body p :
  p = [] \/ p = [pad] \/ p = [pad; pad] ->
  Forall (fun c => (c =? pad) = false) body ->
  (length (body ++ p) mod 4 = 0)%nat ->
  remove_padding (body ++ p) = body.
Proof.
  intros Hp Hbody Hlen. unfold remove_padding.
  apply Nat.eqb_eq in Hlen. rewrite Hlen, rev_app_distr.
  assert (Hrev : Forall (fun c => (c =? pad) = false) (rev body))
    by (apply Forall_rev; exact Hbody).
  destruct Hp as [-> | [-> | ->]]; simpl.
  - rewrite app_nil_r. destruct (rev body) as [|c r] eqn:E; [reflexivity|].
    apply Forall_cons in Hrev as [-> _]. reflexivity.
  - destruct (rev body) as [|c r] eqn:E.
    + apply (f_equal (@rev N)) in E. rewrite rev_involutive in E. now subst.
    + apply Forall_cons in Hrev as [-> _].
      rewrite <- E. apply rev_involutive.
  - apply rev_involutive.
Qed.

Lemma filter_not_space (s : jsstring) :
  Forall (fun c => is_ascii_whitespace c = false) s ->
  filter (fun c => is_ascii_whitespace c = false) s = s.
Proof.
  induction 1 as [|c s Hc Hs IH]; [reflexivity|].
  rewrite filter_cons_True by assumption. now rewrite IH.
Qed.

Lemma Forall_map_all {A B : Type} (P : B -> Prop) (f : A -> B) (l : list A) :
  (forall x, P (f x)) -> Forall P (map f l).
Proof. intros HP. induction l; simpl; constructor; auto. Qed.

Lemma mapM_sextet_of_char sx :
  Forall (fun x => x < 64) sx ->
  mapM sextet_of_char (map char_of_sextet sx) = Some sx.
Proof.
  intros Hsx. apply mapM_Some. induction Hsx as [|x sx Hx Hsx IH]; simpl.
  - constructor.
  - constructor; [now apply sextet_of_char_of_sextet | exact IH].
Qed.

Lemma atob_text binstr :
  Forall (fun x => x < 256) binstr -> atob (text binstr) = Returned binstr.
Proof.
  intros Hb. unfold atob, text.
  destruct (sextets_length binstr) as [Hne Hlen].
  rewrite filter_not_space; cycle 1.
  { apply Forall_app. split.
    - apply Forall_map_all, char_of_sextet_not_space.
    - destruct (padding_cases (length binstr)) as [-> | [-> | ->]];
        repeat constructor. }
  rewrite remove_padding_app.
  - rewrite length_map.
    destruct (Nat.eqb_spec (length (sextets binstr) mod 4) 1); [contradiction|].
    rewrite mapM_sextet_of_char by now apply sextets_bounded.
    now rewrite octets_sextets.
  - apply padding_cases.
  - apply Forall_map_all, char_of_sextet_not_pad.
  - now rewrite length_app, length_map.
Qed.

End Base64Facts.

(** ** UTF-8 *)

Module Utf8Facts.
Import Utf8.

(** The octets of a code point fit in a byte. *)
Lemma encode_point_octets cp :
  cp < 0x110000 -> Forall (fun x => x < 256) (encode_point cp).
Proof.
  intros Hcp. unfold encode_point.
  repeat case_match; props; repeat (apply Forall_cons; split);
    try apply Forall_nil; lia.
Qed.

(** A code unit below 128 is its own code point and its own octet. *)
Lemma code_points_ascii (s : jsstring) :
  Forall (fun c => c < 128) s -> code_points s = Some s /\ encode s = s.
Proof.
  induction 1 as [|c s Hc Hs [IHp IHe]]; [now split|].
  simpl. unfold is_high_surrogate, is_low_surrogate.
  destruct (N.leb_spec 0xD800 c); [lia|]. simpl.
  destruct (N.leb_spec 0xDC00 c); [lia|]. simpl.
  rewrite IHp. simpl. split; [reflexivity|].
  unfold encode in *. simpl. unfold encode_point at 1.
  destruct (N.ltb_spec c 0x80); [|lia]. simpl. now rewrite IHe.
Qed.

(** A pair of surrogates is one code point of four octets. *)
Example code_points_of_a_pair :
  code_points [0xD83D; 0xDE00] = Some [0x1F600] /\
  encode [0x1F600] = [0xF0; 0x9F; 0x98; 0x80] /\
  code_points [0xD83D] = None /\
  code_points [0xDE00; 0xD83D] = None.
Proof. repeat split. Qed.

End Utf8Facts.

(** ** The encoder against the Unicode standard *)

Module UnicodeFacts.
Import Unicode.

Lemma is_scalar_spec cp :
  is_scalar cp = true <-> cp < 0x110000 /\ (cp < 0xD800 \/ 0xDFFF < cp).
Proof.
  unfold is_scalar. rewrite andb_true_iff, negb_true_iff, andb_false_iff.
  rewrite N.ltb_lt, N.leb_gt, N.leb_gt. reflexivity.
Qed.

(** Every comparison the goal branches on, decided by arithmetic. *)
Ltac branch :=
  repeat match goal with
    | |- context [if ?c then _ else _] =>
        let E := fresh "E" in
        destruct c eqn:E;
        repeat first
          [ progress props
          | progress split_bools
          | match goal with
            | H : negb _ = false |- _ => apply negb_false_iff in H
            | H : negb _ = true |- _ => apply negb_true_iff in H
            end ];
        try lia
    end.

(** The decoder reads back the octets of a scalar value. *)
Lemma utf8_decode_encode_point cp rest :
  is_scalar cp = true ->
  utf8_decode (Utf8.encode_point cp ++ rest) = cons cp <$> utf8_decode rest.
Proof.
  intros Hs. apply is_scalar_spec in Hs as [Hmax Hsur].
  unfold Utf8.encode_point.
  destruct (N.ltb_spec cp 0x80); [|destruct (N.ltb_spec cp 0x800);
    [|destruct (N.ltb_spec cp 0x10000)]];
    cbn [app utf8_decode]; unfold is_continuation, is_scalar; branch;
    do 2 f_equal; lia.
Qed.

Lemma utf8_decode_encode cps :
  forallb is_scalar cps = true -> utf8_decode (Utf8.encode cps) = Some cps.
Proof.
  induction cps as [|cp cps IH]; [reflexivity|].
  simpl. intros H. apply andb_true_iff in H as [Hcp Hcps].
  unfold Utf8.encode in *. simpl.
  rewrite utf8_decode_encode_point by assumption. now rewrite IH.
Qed.

(** The code's reading of surrogate pairs inverts UTF-16. *)
Lemma code_points_utf16_point cp rest :
  is_scalar cp = true ->
  Utf8.code_points (utf16_point cp ++ rest) = cons cp <$> Utf8.code_points rest.
Proof.
  intros Hs. apply is_scalar_spec in Hs as [Hmax Hsur].
  unfold utf16_point.
  destruct (N.ltb_spec cp 0x10000);
    cbn [app Utf8.code_points];
    unfold Utf8.is_high_surrogate, Utf8.is_low_surrogate; branch;
    do 2 f_equal; lia.
Qed.

Lemma code_points_utf16 cps :
  forallb is_scalar cps = true -> Utf8.code_points (utf16 cps) = Some cps.
Proof.
  induction cps as [|cp cps IH]; [reflexivity|].
  simpl. intros H. apply andb_true_iff in H as [Hcp Hcps].
  unfold utf16 in *. simpl.
  rewrite code_points_utf16_point by assumption. now rewrite IH.
Qed.

Lemma fmap_cons_Some {A : Type} (x : A) (o : option (list A)) (l : list A) :
  cons x <$> o = Some l -> exists l', o = Some l' /\ l = x :: l'.
Proof. destruct o as [l'|]; simpl; [|discriminate]. intros [= <-]. eauto. Qed.

(** A string the code finds code points in is the UTF-16 of scalar
    values: it has no lone surrogate. *)
Lemma code_points_inv (n : nat) :
  forall (s : jsstring) (cps : list N),
    (length s <= n)%nat ->
    Forall (fun c => c < 0x10000) s ->
    Utf8.code_points s = Some cps ->
    s = utf16 cps /\ forallb is_scalar cps = true.
Proof.
  induction n as [|n IH]; intros s cps Hlen Hs Hcp.
  - destruct s; [|simpl in Hlen; lia]. simpl in Hcp. injection Hcp as <-.
    now split.
  - destruct s as [|c s]; [simpl in Hcp; injection Hcp as <-; now split|].
    apply Forall_cons in Hs as [Hc Hs]. simpl in Hlen.
    cbn [Utf8.code_points] in Hcp.
    unfold Utf8.is_high_surrogate, Utf8.is_low_surrogate in Hcp.
    destruct ((0xD800 <=? c) && (c <=? 0xDBFF)) eqn:Ehigh.
    + destruct s as [|d s]; [discriminate|].
      apply Forall_cons in Hs as [Hd Hs]. simpl in Hlen.
      destruct ((0xDC00 <=? d) && (d <=? 0xDFFF)) eqn:Elow; [|discriminate].
      apply fmap_cons_Some in Hcp as (cps' & Hcp & ->).
      destruct (IH s cps') as [Hs' Hsc]; [lia | assumption | assumption |].
      props. split.
      * change (utf16 (((c - 0xD800) * 0x400 + (d - 0xDC00) + 0x10000) :: cps'))
          with (utf16_point ((c - 0xD800) * 0x400 + (d - 0xDC00) + 0x10000)
                  ++ utf16 cps').
        rewrite <- Hs'. unfold utf16_point.
        destruct (N.ltb_spec ((c - 0xD800) * 0x400 + (d - 0xDC00) + 0x10000) 0x10000);
          [lia|].
        simpl. f_equal; [lia | f_equal; lia].
      * simpl. rewrite Hsc, andb_true_r. apply is_scalar_spec. lia.
    + destruct ((0xDC00 <=? c) && (c <=? 0xDFFF)) eqn:Elow; [discriminate|].
      apply fmap_cons_Some in Hcp as (cps' & Hcp & ->).
      destruct (IH s cps') as [Hs' Hsc]; [lia | assumption | assumption |].
      split.
      * change (utf16 (c :: cps')) with (utf16_point c ++ utf16 cps').
        rewrite <- Hs'. unfold utf16_point.
        now destruct (N.ltb_spec c 0x10000); [|lia].
      * simpl. rewrite Hsc, andb_true_r. apply is_scalar_spec.
        split_bools; props; lia.
Qed.

Lemma encode_octets cps :
  forallb is_scalar cps = true -> Forall (fun x => x < 256) (Utf8.encode cps).
Proof.
  induction cps as [|cp cps IH]; [constructor|].
  simpl. intros H. apply andb_true_iff in H as [Hcp Hcps].
  unfold Utf8.encode in *. simpl. apply Forall_app. split; [|now apply IH].
  apply Utf8Facts.encode_point_octets. now apply is_scalar_spec in Hcp as [? _].
Qed.

End UnicodeFacts.

(** ** The [unibabel] functions *)

Module UnibabelFacts.
Import Unibabel.

Lemma byte_of_N_to_N b : byte_of_N (Byte.to_N b) = b.
Proof.
  unfold byte_of_N. pose proof (Byte.to_N_bounded b) as Hb.
  rewrite N.mod_small by lia. now rewrite Byte.of_to_N.
Qed.

Lemma binaryStringToBuffer_bufferToBinaryString buf :
  binaryStringToBuffer (bufferToBinaryString buf) = buf.
Proof.
  unfold binaryStringToBuffer, bufferToBinaryString.
  induction buf as [|b buf IH]; simpl; [reflexivity|].
  now rewrite byte_of_N_to_N, IH.
Qed.

Lemma bufferToBinaryString_bounded buf :
  Forall (fun x => x < 256) (bufferToBinaryString buf).
Proof.
  apply Base64Facts.Forall_map_all. intros b.
  pose proof (Byte.to_N_bounded b). lia.
Qed.

Lemma bufferToBase64_text buf :
  bufferToBase64 buf = Returned (Base64.text (bufferToBinaryString buf)).
Proof.
  unfold bufferToBase64, Base64.btoa.
  replace (forallb _ _) with true; [reflexivity|].
  symmetry. apply forallb_forall. intros c Hc.
  apply N.ltb_lt.
  pose proof (bufferToBinaryString_bounded buf) as Hb.
  rewrite List.Forall_forall in Hb. now apply Hb.
Qed.

(** Decoding the base64 text of a buffer gives the buffer back. *)
Lemma base64ToBuffer_bufferToBase64 buf base64 :
  bufferToBase64 buf = Returned base64 ->
  base64ToBuffer base64 = Returned buf.
Proof.
  rewrite bufferToBase64_text. intros [= <-].
  unfold base64ToBuffer.
  rewrite Base64Facts.atob_text by apply bufferToBinaryString_bounded.
  simpl. unfold mret, outcome_ret.
  now rewrite binaryStringToBuffer_bufferToBinaryString.
Qed.

(** A binary string is the string of its buffer. *)
Lemma binary_string_of_its_buffer (binstr : jsstring) :
  Forall (fun c => c < 256) binstr ->
  bufferToBinaryString (binaryStringToBuffer binstr) = binstr.
Proof.
  unfold bufferToBinaryString, binaryStringToBuffer.
  induction 1 as [|c s Hc Hs IH]; [reflexivity|]. simpl. rewrite IH. f_equal.
  unfold byte_of_N. rewrite N.mod_small by lia.
  destruct (Byte.of_N c) eqn:E.
  - now apply Byte.to_of_N.
  - apply Byte.of_N_None_iff in E. lia.
Qed.

End UnibabelFacts.

(** ** The loop of [copyLargeBlobsToRemote] *)

Section RunFacts.

Context {rt : Runtime}.
Implicit Types (d : DataRef) (upload : UploadFunc) (st : progress).
Implicit Types (l : list (jsstring * DataRef)) (inputs : InputsRefs).

Lemma callback_fields d upload st name :
  callback d upload st name =
  {| result := install upload (result st) (name, d);
     uploads := uploads st ++ (pair name <$> requests d);
     thrown := thrown st ++ throws d;
     rejected := rejected st ++ rejections upload d |}.
Proof.
  unfold callback, install, installed, requests, throws, rejections. simpl.
  destruct (uint8ArrayIfBig d) as [[buf|]|e]; simpl.
  - destruct (upload buf); simpl; now rewrite !app_nil_r.
  - destruct st; simpl; now rewrite !app_nil_r.
  - now rewrite !app_nil_r.
Qed.

Lemma foldl_callback l upload st :
  foldl (fun st '(name, d) => callback d upload st name) st l =
  {| result := foldl (install upload) (result st) l;
     uploads := uploads st ++ flat_map (fun e => pair e.1 <$> requests e.2) l;
     thrown := thrown st ++ flat_map (fun e => throws e.2) l;
     rejected := rejected st ++ flat_map (fun e => rejections upload e.2) l |}.
Proof.
  revert st. induction l as [|[name d] l IH]; intros st; simpl.
  - destruct st; simpl. now rewrite !app_nil_r.
  - rewrite IH, callback_fields. simpl. now rewrite <- !app_assoc.
Qed.

Lemma foldl_install_lookup l upload (m : InputsRefs) k :
  NoDup l.*1 ->
  foldl (install upload) m l !! k =
  match (list_to_map l : InputsRefs) !! k with
  | Some d => match installed upload d with
              | Some r => Some r
              | None => m !! k
              end
  | None => m !! k
  end.
Proof.
  revert m. induction l as [|[name d] l IH]; intros m Hnd; simpl.
  - now rewrite lookup_empty.
  - apply NoDup_cons in Hnd as [Hname Hnd]. rewrite IH by assumption.
    destruct (decide (name = k)) as [->|Hne].
    + rewrite lookup_insert_eq.
      rewrite (not_elem_of_list_to_map_1 (M := gmap jsstring) l k Hname).
      unfold install. simpl. destruct (installed upload d); [|reflexivity].
      apply lookup_insert_eq.
    + rewrite lookup_insert_ne by assumption.
      assert (Hk : install upload m (name, d) !! k = m !! k).
      { unfold install. simpl. destruct (installed upload d); [|reflexivity].
        now apply lookup_insert_ne. }
      now rewrite Hk.
Qed.

(** The [result] object after the loop: every entry whose callback
    succeeds, under its own name. *)
Lemma run_result inputs upload :
  result (run (map_to_list inputs) upload) = omap (installed upload) inputs.
Proof.
  unfold run. rewrite foldl_callback. simpl. apply map_eq. intros k.
  rewrite foldl_install_lookup by apply NoDup_fst_map_to_list.
  rewrite list_to_map_to_list, lookup_omap, lookup_empty.
  destruct (inputs !! k) as [d|]; simpl; [|reflexivity].
  now destruct (installed upload d).
Qed.

Lemma filter_pair_same (name : jsstring) (bs : list Uint8Array) :
  filter (fun c : jsstring * Uint8Array => c.1 = name) (pair name <$> bs)
  = pair name <$> bs.
Proof.
  induction bs as [|b bs IH]; [reflexivity|].
  rewrite fmap_cons, filter_cons_True by reflexivity. now rewrite IH.
Qed.

Lemma filter_pair_other (k name : jsstring) (bs : list Uint8Array) :
  k <> name ->
  filter (fun c : jsstring * Uint8Array => c.1 = name) (pair k <$> bs) = [].
Proof.
  intros Hne. induction bs as [|b bs IH]; [reflexivity|].
  now rewrite fmap_cons, filter_cons_False by (simpl; congruence).
Qed.

Lemma snd_pair (name : jsstring) (bs : list Uint8Array) : (pair name <$> bs).*2 = bs.
Proof.
  induction bs as [|b bs IH]; [reflexivity|].
  rewrite !fmap_cons. simpl. now rewrite IH.
Qed.

Lemma calls_for_requests l name :
  NoDup l.*1 ->
  calls_for name (flat_map (fun e => pair e.1 <$> requests e.2) l) =
  match (list_to_map l : InputsRefs) !! name with
  | Some d => requests d
  | None => []
  end.
Proof.
  unfold calls_for. induction l as [|[k d] l IH]; intros Hnd; simpl.
  - now rewrite lookup_empty.
  - apply NoDup_cons in Hnd as [Hk Hnd].
    rewrite filter_app, fmap_app, IH by assumption.
    destruct (decide (k = name)) as [->|Hne].
    + rewrite lookup_insert_eq.
      rewrite (not_elem_of_list_to_map_1 (M := gmap jsstring) l name Hk).
      now rewrite app_nil_r, filter_pair_same, snd_pair.
    + rewrite lookup_insert_ne by assumption.
      now rewrite filter_pair_other by assumption.
Qed.

(** The calls of [upload] made for a name: the one its entry asks for. *)
Lemma run_calls_for inputs upload name :
  calls_for name (uploads (run (map_to_list inputs) upload)) =
  match inputs !! name with
  | Some d => requests d
  | None => []
  end.
Proof.
  unfold run. rewrite foldl_callback. simpl.
  rewrite calls_for_requests by apply NoDup_fst_map_to_list.
  now rewrite list_to_map_to_list.
Qed.

Lemma entry_fails_installed upload d :
  entry_fails upload d <-> installed upload d = None.
Proof.
  unfold entry_fails, installed. split.
  - intros [[e ->] | (buf & e & -> & ->)]; reflexivity.
  - destruct (uint8ArrayIfBig d) as [[buf|]|e] eqn:E; [| discriminate | eauto].
    destruct (upload buf) as [r|e] eqn:U; [discriminate|].
    intros _. right. eauto.
Qed.

Lemma entry_fails_errors upload d :
  entry_fails upload d <-> throws d ++ rejections upload d <> [].
Proof.
  unfold entry_fails, throws, rejections. split.
  - intros [[e ->] | (buf & e & -> & ->)]; discriminate.
  - destruct (uint8ArrayIfBig d) as [[buf|]|e] eqn:E; simpl;
      [| congruence | eauto].
    destruct (upload buf) as [r|e] eqn:U; [congruence|].
    intros _. right. eauto.
Qed.

Lemma flat_map_nil {A B : Type} (f : A -> list B) (xs : list A) :
  flat_map f xs = [] <-> forall x, x ∈ xs -> f x = [].
Proof.
  induction xs as [|x xs IH]; simpl.
  - split; [intros _ y Hy; inversion Hy | reflexivity].
  - rewrite app_nil, IH. split.
    + intros [Hx Hxs] y Hy. apply elem_of_cons in Hy as [->|Hy]; auto.
    + intros H. split; [apply H; left | intros y Hy; apply H; now right].
Qed.

Lemma flat_map_not_nil {A B : Type} (f : A -> list B) (xs : list A) :
  flat_map f xs <> [] -> exists x, x ∈ xs /\ f x <> [].
Proof.
  induction xs as [|x xs IH]; simpl; [congruence|].
  intros Hne. destruct (f x) as [|b bs] eqn:E.
  - destruct (IH Hne) as (y & Hy & Hfy). exists y. split; [now right | exact Hfy].
  - exists x. split; [left | congruence].
Qed.

(** The errors met in the loop: none exactly when no entry fails. *)
Lemma run_errors inputs upload :
  let st := run (map_to_list inputs) upload in
  thrown st ++ rejected st = [] <->
  forall name d, inputs !! name = Some d -> ~ entry_fails upload d.
Proof.
  unfold run. rewrite foldl_callback. simpl.
  rewrite app_nil, !flat_map_nil. split.
  - intros [Ht Hr] name d Hd Hfail.
    apply entry_fails_errors in Hfail. apply Hfail.
    apply elem_of_map_to_list in Hd.
    apply app_nil. split; [apply (Ht _ Hd) | apply (Hr _ Hd)].
  - intros H. split; intros [name d] Hd; apply elem_of_map_to_list in Hd;
      specialize (H name d Hd); rewrite entry_fails_errors in H;
      simpl; destruct (throws d), (rejections upload d);
      try reflexivity; exfalso; apply H; discriminate.
Qed.

(** The call returns a mapping exactly when no entry fails, and the
    mapping is the [result] object. *)
Lemma settle_run inputs upload :
  match settle (run (map_to_list inputs) upload) with
  | Returned r =>
      r = omap (installed upload) inputs /\
      forall name d, inputs !! name = Some d -> ~ entry_fails upload d
  | Threw _ =>
      exists name d, inputs !! name = Some d /\ entry_fails upload d
  end.
Proof.
  pose proof (run_errors inputs upload) as Herr. simpl in Herr.
  unfold settle.
  destruct (thrown _ ++ rejected _) as [|e es] eqn:E.
  - split; [apply run_result | now apply Herr].
  - clear Herr. unfold run in E. rewrite foldl_callback in E. simpl in E.
    assert (Hex : exists x, x ∈ map_to_list inputs /\
                    throws x.2 ++ rejections upload x.2 <> []).
    { destruct (flat_map (fun x => throws x.2) (map_to_list inputs)) eqn:Et.
      - destruct (flat_map_not_nil (fun x => rejections upload x.2)
                    (map_to_list inputs)) as (x & Hx & Hne).
        { simpl in E. rewrite E. discriminate. }
        exists x. split; [exact Hx|]. destruct (throws x.2); [exact Hne | discriminate].
      - destruct (flat_map_not_nil (fun x => throws x.2)
                    (map_to_list inputs)) as (x & Hx & Hne).
        { rewrite Et. discriminate. }
        exists x. split; [exact Hx|]. destruct (throws x.2); [congruence | discriminate]. }
    destruct Hex as ([name d] & Hd & Hne).
    exists name, d. split; [now apply elem_of_map_to_list | now apply entry_fails_errors].
Qed.

End RunFacts.

(** ** The [switch] of [copyLargeBlobsToRemote] *)

Section SwitchFacts.

Context {rt : Runtime}.
Implicit Types (d : DataRef) (upload : UploadFunc) (inputs : InputsRefs).

Lemma JSON_stringify_falsy v :
  truthy v = false -> (len (JSON_stringify v) <= 5)%Z.
Proof.
  destruct v as [|[|]|[|p|p]|[|c s]| | |]; simpl; try discriminate;
    intros _; unfold len; simpl; lia.
Qed.

Lemma length_exceeds_max_string s :
  length_exceeds_max (JStr s) = Returned (ENV_VAR_DATA_ITEM_LENGTH_MAX <? len s)%Z.
Proof. reflexivity. Qed.


(** Above the maximum the decoded bytes are to be uploaded. *)
Lemma uint8ArrayIfBig_big d n :
  inline_size d = Some n -> (ENV_VAR_DATA_ITEM_LENGTH_MAX < n)%Z ->
  uint8ArrayIfBig d = Some <$> decoded_bytes d.
Proof.
  unfold inline_size, uint8ArrayIfBig, decoded_bytes.
  destruct (effective_type d); try discriminate.
  - destruct (value d); try discriminate. intros [= <-] Hn.
    rewrite length_exceeds_max_string. simpl.
    now destruct (Z.ltb_spec ENV_VAR_DATA_ITEM_LENGTH_MAX (len s)); [|lia].
  - destruct (value d); try discriminate. intros [= <-] Hn.
    rewrite length_exceeds_max_string. simpl.
    now destruct (Z.ltb_spec ENV_VAR_DATA_ITEM_LENGTH_MAX (len s)); [|lia].
  - intros [= <-] Hn. destruct (truthy (value d)) eqn:Ht.
    + now destruct (Z.ltb_spec ENV_VAR_DATA_ITEM_LENGTH_MAX
                      (len (JSON_stringify (value d)))); [|lia].
    + apply JSON_stringify_falsy in Ht. unfold ENV_VAR_DATA_ITEM_LENGTH_MAX in Hn. lia.
Qed.

Lemma fmap_Some_Returned {A : Type} (o : outcome A) (a : A) :
  Some <$> o = Returned (Some a) -> o = Returned a.
Proof. destruct o; simpl; now intros [= ->]. Qed.

(** What is uploaded is the decoded payload. *)
Lemma uint8ArrayIfBig_decoded d buf :
  uint8ArrayIfBig d = Returned (Some buf) -> decoded_bytes d = Returned buf.
Proof.
  unfold uint8ArrayIfBig, decoded_bytes.
  destruct (effective_type d).
  - destruct (length_exceeds_max (value d)) as [[|]|]; simpl;
      [apply fmap_Some_Returned | discriminate ..].
  - destruct (length_exceeds_max (value d)) as [[|]|]; simpl;
      [apply fmap_Some_Returned | discriminate ..].
  - destruct (length_exceeds_max (value d)) as [[|]|]; simpl;
      [apply fmap_Some_Returned | discriminate ..].
  - destruct (truthy (value d)); [|discriminate].
    destruct (_ <? _)%Z; [apply fmap_Some_Returned | discriminate].
  - discriminate.
Qed.

Lemma copy_returned inputs upload r :
  (copyLargeBlobsToRemote (Some inputs) upload).1 = Returned (Some r) ->
  r = omap (installed upload) inputs /\
  forall name d, inputs !! name = Some d -> ~ entry_fails upload d.
Proof.
  simpl. pose proof (settle_run inputs upload) as H.
  destruct (settle _) as [r'|e]; simpl; [|discriminate].
  now intros [= <-].
Qed.


(** An entry that is too big. *)
Lemma offloaded_entry inputs upload name d buf :
  inputs !! name = Some d -> uint8ArrayIfBig d = Returned (Some buf) ->
  calls_for name (copyLargeBlobsToRemote (Some inputs) upload).2 = [buf] /\
  forall r, (copyLargeBlobsToRemote (Some inputs) upload).1 = Returned (Some r) ->
            exists remoteRef, upload buf = Returned remoteRef /\
              r !! name = Some (set_hash (Some (sha1 (JBytes buf))) remoteRef).
Proof.
  intros Hd Hsw. split.
  - simpl. rewrite run_calls_for, Hd. unfold requests. now rewrite Hsw.
  - intros r Hr. apply copy_returned in Hr as [-> Hok].
    specialize (Hok name d Hd). rewrite entry_fails_installed in Hok.
    rewrite lookup_omap, Hd. simpl. unfold installed in *. rewrite Hsw in *.
    destruct (upload buf) as [remoteRef|e]; [eauto | contradiction].
Qed.

(** An entry whose callback fails. *)
Lemma failed_entry inputs upload name d :
  inputs !! name = Some d -> entry_fails upload d ->
  exists e, (copyLargeBlobsToRemote (Some inputs) upload).1 = Threw e.
Proof.
  intros Hd Hfail. simpl. pose proof (settle_run inputs upload) as H.
  destruct (settle _) as [r|e]; simpl; [|eauto].
  destruct H as [_ H]. now destruct (H name d Hd).
Qed.

End SwitchFacts.

(** ** The call on objects *)

Module ByReferenceFacts.
Import ByReference ByReferenceTerms.

Section Facts.

Context {rt : Runtime}.
Implicit Types (h : store) (upload : Upload) (st : state) (o : object).
Implicit Types (es : properties) (xs : list (jsstring * nat)).
Implicit Types (ws : list (jsstring * jsstring * reply)).

Lemma callback_by_field upload st entry :
  callback upload st entry =
  {| result := assign_all (result st) (kept (heap st) entry);
     heap := heap st;
     calls := calls st ++ asked (heap st) entry;
     awaiting := awaiting st ++ waits (heap st) upload entry;
     thrown := thrown st ++ throws (heap st) upload entry;
     rejected := rejected st |}.
Proof.
  destruct entry as [name l], st as [r hp cs aw th rj].
  unfold callback, kept, asked, waits, throws, assign_all. simpl.
  destruct (hp !! l) as [d|]; simpl; [|now rewrite !app_nil_r].
  destruct (uint8ArrayIfBig d) as [[buf|]|e]; simpl;
    [|now rewrite !app_nil_r ..].
  destruct (upload buf); simpl; now rewrite ?app_nil_r.
Qed.

Lemma callbacks_by_field upload es st :
  foldl (callback upload) st es =
  {| result := assign_all (result st) (flat_map (kept (heap st)) es);
     heap := heap st;
     calls := calls st ++ flat_map (asked (heap st)) es;
     awaiting := awaiting st ++ flat_map (waits (heap st) upload) es;
     thrown := thrown st ++ flat_map (throws (heap st) upload) es;
     rejected := rejected st |}.
Proof.
  revert st. induction es as [|entry es IH]; intros st; simpl.
  - destruct st; simpl. unfold assign_all. simpl. now rewrite !app_nil_r.
  - rewrite IH, callback_by_field. simpl.
    unfold assign_all. rewrite foldl_app, <- !app_assoc. reflexivity.
Qed.

Lemma same_objects_write h h' w : same_objects h h' -> same_objects h (write h' w).
Proof.
  intros Hsame l. unfold write.
  destruct w.2 as [r| |]; try apply Hsame.
  destruct (h' !! r) as [o|] eqn:E; [|apply Hsame].
  destruct (decide (r = l)) as [->|Hne].
  - rewrite lookup_insert_eq. split; [discriminate|].
    intros Hn. apply Hsame in Hn. congruence.
  - rewrite lookup_insert_ne by assumption. apply Hsame.
Qed.

Lemma resume_fields h st w :
  same_objects h (heap st) ->
  resume st w =
  {| result := assign_all (result st) (resolved h w);
     heap := write (heap st) w;
     calls := calls st;
     awaiting := awaiting st;
     thrown := thrown st;
     rejected := rejected st ++ rejections h w |}.
Proof.
  intros Hsame. destruct w as [[name hash] answer], st as [r hp cs aw th rj].
  unfold resume, resolved, rejections, write, assign_all. simpl in *.
  destruct answer as [remoteRef|e|e]; simpl; try now rewrite ?app_nil_r.
  pose proof (Hsame remoteRef) as Hl.
  destruct (hp !! remoteRef) as [o|], (h !! remoteRef) as [o'|]; simpl;
    try now rewrite ?app_nil_r.
  - discriminate (proj2 Hl eq_refl).
  - discriminate (proj1 Hl eq_refl).
Qed.

Lemma foldl_resume h ws st :
  same_objects h (heap st) ->
  foldl resume st ws =
  {| result := assign_all (result st) (flat_map (resolved h) ws);
     heap := foldl write (heap st) ws;
     calls := calls st;
     awaiting := awaiting st;
     thrown := thrown st;
     rejected := rejected st ++ flat_map (rejections h) ws |}.
Proof.
  revert st. induction ws as [|w ws IH]; intros st Hsame; simpl.
  - destruct st; simpl. unfold assign_all. simpl. now rewrite app_nil_r.
  - rewrite (resume_fields h st w Hsame). rewrite IH.
    + simpl. unfold assign_all. rewrite foldl_app, <- app_assoc. reflexivity.
    + simpl. now apply same_objects_write.
Qed.

(** The call, field by field. *)
Lemma call_fields es h upload :
  copyLargeBlobsToRemote (Some es) h upload =
  {| returned :=
       match flat_map (throws h upload) es
             ++ flat_map (rejections h) (flat_map (waits h upload) es) with
       | [] => Returned (Some (assign_all empty_object (assignments h upload es)))
       | e :: _ => Threw e
       end;
     objects := foldl write h (flat_map (waits h upload) es);
     called := flat_map (asked h) es |}.
Proof.
  unfold copyLargeBlobsToRemote. rewrite callbacks_by_field. simpl.
  rewrite (foldl_resume h); [|now intros l]. simpl.
  unfold assignments, assign_all. now rewrite foldl_app.
Qed.

(** *** The store after the call *)

Lemma written_snoc ws w l :
  written (ws ++ [w]) l = last_hash (written ws l) l w.
Proof. unfold written. now rewrite foldl_app. Qed.

Lemma foldl_write_lookup h ws l :
  foldl write h ws !! l
  = (fun d => match written ws l with
              | Some hsh => set_hash (Some hsh) d
              | None => d
              end) <$> h !! l.
Proof.
  induction ws as [|w ws IH] using rev_ind.
  - simpl. now destruct (h !! l).
  - rewrite foldl_app, written_snoc. destruct w as [[name hsh] answer].
    cbn [foldl]. set (hp := foldl write h ws) in *.
    unfold write, last_hash. simpl. destruct answer as [r| |]; try exact IH.
    destruct (hp !! r) as [o'|] eqn:Er.
    + destruct (decide (r = l)) as [->|Hne].
      * rewrite lookup_insert_eq. rewrite IH in Er.
        destruct (h !! l) as [o0|]; [|discriminate]. simpl in *.
        injection Er as <-. now destruct (written ws l).
      * now rewrite lookup_insert_ne.
    + destruct (decide (r = l)) as [->|Hne]; [|exact IH].
      rewrite Er. rewrite IH in Er.
      destruct (h !! l); [discriminate | reflexivity].
Qed.

(** A hash that was written is the hash of a callback that waited for the
    object. *)
Lemma written_Some ws l hsh :
  written ws l = Some hsh -> exists name, (name, hsh, Resolves l) ∈ ws.
Proof.
  induction ws as [|w ws IH] using rev_ind; [discriminate|].
  rewrite written_snoc. unfold last_hash.
  destruct w as [[name hsh'] answer]. simpl.
  destruct answer as [r| |];
    try (intros H; destruct (IH H) as [n Hn]; exists n;
         apply elem_of_app; now left).
  destruct (decide (r = l)) as [->|_].
  - intros [= ->]. exists name. apply elem_of_app. right. now left.
  - intros H. destruct (IH H) as [n Hn]. exists n. apply elem_of_app. now left.
Qed.

Lemma written_is_Some ws l name hsh :
  (name, hsh, Resolves l) ∈ ws -> is_Some (written ws l).
Proof.
  induction ws as [|w ws IH] using rev_ind; [intros H; inversion H|].
  rewrite written_snoc. intros Hin. apply elem_of_app in Hin as [Hin|Hin].
  - unfold last_hash. destruct w.2 as [r| |]; try now apply IH.
    destruct (decide (r = l)); [eauto | now apply IH].
  - apply list_elem_of_singleton in Hin as <-. unfold last_hash.
    cbn [snd fst]. case_decide; [eauto | congruence].
Qed.

(** *** The [result] object after the call *)

Lemma get_assign o n v name :
  get (assign o n v) name = if decide (n = name) then Some v else get o name.
Proof.
  unfold get, assign.
  destruct (decide (n = proto_key)) as [->|Hn],
           (decide (name = proto_key)) as [->|Hname]; cbn [own proto].
  - now destruct (decide (proto_key = proto_key)).
  - now destruct (decide (proto_key = name)); [congruence|].
  - now destruct (decide (n = proto_key)).
  - destruct (decide (n = name)) as [->|Hne].
    + apply lookup_insert_eq.
    + now apply lookup_insert_ne.
Qed.

Lemma own_assign o n v name :
  name <> proto_key ->
  own (assign o n v) !! name
  = if decide (n = name) then Some v else own o !! name.
Proof.
  intros Hname. unfold assign.
  destruct (decide (n = proto_key)) as [->|Hn]; cbn [own proto].
  - now destruct (decide (proto_key = name)); [congruence|].
  - destruct (decide (n = name)) as [->|Hne].
    + apply lookup_insert_eq.
    + now apply lookup_insert_ne.
Qed.

Lemma assign_all_snoc o xs x :
  assign_all o (xs ++ [x]) = assign (assign_all o xs) x.1 x.2.
Proof. unfold assign_all. now rewrite foldl_app. Qed.

Lemma get_assign_all_inv o xs name v :
  get (assign_all o xs) name = Some v ->
  get o name = Some v \/ (name, v) ∈ xs.
Proof.
  induction xs as [|[n v'] xs IH] using rev_ind; [now left|].
  rewrite assign_all_snoc, get_assign. simpl.
  destruct (decide (n = name)) as [->|Hne].
  - intros [= ->]. right. apply elem_of_app. right. now left.
  - intros H. destruct (IH H) as [?|Hin]; [now left|].
    right. apply elem_of_app. now left.
Qed.

Lemma get_assign_all o xs name v :
  (exists v', (name, v') ∈ xs) ->
  (forall v', (name, v') ∈ xs -> v' = v) ->
  get (assign_all o xs) name = Some v.
Proof.
  induction xs as [|[n v'] xs IH] using rev_ind.
  - intros [v' H]. inversion H.
  - intros [v0 Hex] Hall. rewrite assign_all_snoc, get_assign. simpl.
    destruct (decide (n = name)) as [->|Hne].
    + f_equal. apply Hall. apply elem_of_app. right. now left.
    + apply IH.
      * apply elem_of_app in Hex as [Hex|Hex]; [eauto|].
        apply list_elem_of_singleton in Hex. congruence.
      * intros v1 Hv1. apply Hall. apply elem_of_app. now left.
Qed.


Lemma own_assign_all_proto o xs :
  own (assign_all o xs) !! proto_key = own o !! proto_key.
Proof.
  induction xs as [|[n v'] xs IH] using rev_ind; [reflexivity|].
  rewrite assign_all_snoc. cbn [fst snd]. unfold assign.
  destruct (decide (n = proto_key)) as [->|Hn]; cbn [own proto]; [exact IH|].
  now rewrite lookup_insert_ne.
Qed.

(** *** The assignments and the failures of a call *)

Lemma elem_of_flat_map_iff {A B : Type} (f : A -> list B) (l : list A) (y : B) :
  y ∈ flat_map f l <-> exists x, x ∈ l /\ y ∈ f x.
Proof.
  rewrite list_elem_of_In, in_flat_map. split.
  - intros (x & Hx & Hy). exists x. now rewrite !list_elem_of_In.
  - intros (x & Hx & Hy). exists x. now rewrite <- !list_elem_of_In.
Qed.


Lemma assignments_elem h upload es name v :
  (name, v) ∈ assignments h upload es
  <-> exists l, (name, l) ∈ es /\ settled h upload (name, l) = Some v.
Proof.
  unfold assignments. rewrite elem_of_app, !elem_of_flat_map_iff. split.
  - intros [([n l] & Hin & Hk) | (w & Hw & Hr)].
    + unfold kept in Hk. simpl in Hk.
      destruct (h !! l) as [d|] eqn:El; [|inversion Hk].
      destruct (uint8ArrayIfBig d) as [[buf|]|e] eqn:Esw; try (now inversion Hk).
      apply list_elem_of_singleton in Hk. injection Hk as -> ->.
      exists l. split; [assumption|]. unfold settled. simpl. now rewrite El, Esw.
    + apply elem_of_flat_map_iff in Hw as ([n l] & Hin & Hw).
      unfold waits in Hw. simpl in Hw.
      destruct (h !! l) as [d|] eqn:El; [|inversion Hw].
      destruct (uint8ArrayIfBig d) as [[buf|]|e] eqn:Esw; try (now inversion Hw).
      exists l. unfold settled, resolved in *. simpl. rewrite El, Esw.
      destruct (upload buf) as [r|e|e] eqn:Eu; [| |inversion Hw];
        apply list_elem_of_singleton in Hw; subst w; simpl in Hr;
        [|inversion Hr].
      destruct (h !! r) as [o|]; [|inversion Hr].
      apply list_elem_of_singleton in Hr. injection Hr as -> ->. now split.
  - intros (l & Hin & Hs). unfold settled in Hs. simpl in Hs.
    destruct (h !! l) as [d|] eqn:El; [|discriminate].
    destruct (uint8ArrayIfBig d) as [[buf|]|e] eqn:Esw; [| |discriminate].
    + right. destruct (upload buf) as [r|e|e] eqn:Eu; try discriminate.
      destruct (h !! r) as [o|] eqn:Er; [|discriminate]. injection Hs as <-.
      exists (name, sha1 (JBytes buf), Resolves r). split.
      * apply elem_of_flat_map_iff. exists (name, l). split; [assumption|].
        unfold waits. simpl. rewrite El, Esw, Eu. now left.
      * unfold resolved. simpl. rewrite Er. now left.
    + left. injection Hs as <-. exists (name, l). split; [assumption|].
      unfold kept. simpl. rewrite El, Esw. now left.
Qed.

Lemma entry_fails_dec h upload l :
  entry_fails h upload l \/ ~ entry_fails h upload l.
Proof.
  unfold entry_fails. destruct (h !! l) as [d|]; [|now left].
  destruct (uint8ArrayIfBig d) as [[buf|]|e]; [|now right | now left].
  destruct (upload buf) as [r|e|e]; [|now left ..].
  destruct (h !! r); [right; discriminate | now left].
Qed.

(** The errors of one callback: none exactly when it does not fail. *)
Lemma entry_errors h upload entry :
  throws h upload entry ++ flat_map (rejections h) (waits h upload entry) = []
  <-> ~ entry_fails h upload entry.2.
Proof.
  unfold throws, waits, rejections, entry_fails.
  destruct (h !! entry.2) as [d|]; simpl; [|split; [discriminate | tauto]].
  destruct (uint8ArrayIfBig d) as [[buf|]|e]; simpl;
    [| tauto | split; [discriminate | tauto]].
  destruct (upload buf) as [r|e|e]; simpl;
    [| split; [discriminate | tauto] ..].
  destruct (h !! r); simpl; split; try discriminate; try tauto; congruence.
Qed.

Lemma call_errors h upload es :
  flat_map (throws h upload) es
  ++ flat_map (rejections h) (flat_map (waits h upload) es) = []
  <-> forall name l, (name, l) ∈ es -> ~ entry_fails h upload l.
Proof.
  rewrite app_nil, !flat_map_nil. split.
  - intros [Ht Hr] name l Hin. apply (entry_errors h upload (name, l)).
    apply app_nil. split; [now apply Ht|].
    apply flat_map_nil. intros w Hw. apply Hr.
    apply elem_of_flat_map_iff. eauto.
  - intros Hok. split.
    + intros [name l] Hin. specialize (Hok name l Hin).
      apply (entry_errors h upload (name, l)) in Hok.
      now apply app_nil in Hok as [? _].
    + intros w Hw. apply elem_of_flat_map_iff in Hw as ([name l] & Hin & Hw).
      specialize (Hok name l Hin).
      apply (entry_errors h upload (name, l)) in Hok.
      apply app_nil in Hok as [_ Hr]. rewrite flat_map_nil in Hr. now apply Hr.
Qed.

(** The call returns the [result] object exactly when no entry fails. *)
Lemma call_returned es h upload :
  match returned (copyLargeBlobsToRemote (Some es) h upload) with
  | Returned r =>
      r = Some (assign_all empty_object (assignments h upload es)) /\
      forall name l, (name, l) ∈ es -> ~ entry_fails h upload l
  | Threw _ =>
      exists name l, (name, l) ∈ es /\ entry_fails h upload l
  end.
Proof.
  rewrite call_fields. simpl.
  pose proof (call_errors h upload es) as Herr.
  destruct (_ ++ _) as [|e errs] eqn:E.
  - split; [reflexivity | now apply Herr].
  - clear Herr.
    assert (Hex : exists entry, entry ∈ es /\
              throws h upload entry
              ++ flat_map (rejections h) (waits h upload entry) <> []).
    { destruct (flat_map (throws h upload) es) as [|t ts] eqn:Et.
      - simpl in E.
        destruct (flat_map_not_nil (rejections h) (flat_map (waits h upload) es))
          as (w & Hw & Hne); [rewrite E; discriminate|].
        apply elem_of_flat_map_iff in Hw as (entry & Hin & Hw).
        exists entry. split; [assumption|]. intros Hnil.
        apply app_nil in Hnil as [_ Hnil]. rewrite flat_map_nil in Hnil.
        now apply Hne, Hnil.
      - destruct (flat_map_not_nil (throws h upload) es) as (entry & Hin & Hne);
          [rewrite Et; discriminate|].
        exists entry. split; [assumption|]. intros Hnil.
        now apply app_nil in Hnil as [? _]. }
    destruct Hex as ([name l] & Hin & Hne). exists name, l.
    split; [assumption|].
    destruct (entry_fails_dec h upload l) as [?|Hok]; [assumption|].
    exfalso. apply Hne. now apply (entry_errors h upload (name, l)).
Qed.

(** *** Names, waiting callbacks, and the object as a map *)

Lemma unique_property es name l1 l2 :
  NoDup es.*1 -> (name, l1) ∈ es -> (name, l2) ∈ es -> l1 = l2.
Proof.
  intros Hnd H1 H2.
  apply (elem_of_list_to_map (M := gmap jsstring)) in H1, H2; try assumption.
  congruence.
Qed.

Lemma waits_elem h upload es w :
  w ∈ flat_map (waits h upload) es <->
  exists name l d buf,
    (name, l) ∈ es /\ h !! l = Some d /\
    uint8ArrayIfBig d = Returned (Some buf) /\
    (forall e, upload buf <> Throws e) /\
    w = (name, sha1 (JBytes buf), upload buf).
Proof.
  rewrite elem_of_flat_map_iff. split.
  - intros ([name l] & Hin & Hw). unfold waits in Hw. simpl in Hw.
    destruct (h !! l) as [d|] eqn:El; [|inversion Hw].
    destruct (uint8ArrayIfBig d) as [[buf|]|e] eqn:Esw; try (now inversion Hw).
    exists name, l, d, buf.
    destruct (upload buf) as [r|e|e] eqn:Eu; [| |inversion Hw];
      apply list_elem_of_singleton in Hw; subst w; now repeat split.
  - intros (name & l & d & buf & Hin & El & Esw & Hthrow & ->).
    exists (name, l). split; [assumption|].
    unfold waits. simpl. rewrite El, Esw.
    destruct (upload buf) as [r|e|e] eqn:Eu; [now left | now left |].
    now destruct (Hthrow e).
Qed.

Lemma assign_all_cons o x xs :
  assign_all o (x :: xs) = assign_all (assign o x.1 x.2) xs.
Proof. reflexivity. Qed.

Lemma own_assign_all_lookup xs : forall o k,
  NoDup xs.*1 -> k <> proto_key ->
  own (assign_all o xs) !! k
  = match (list_to_map xs : gmap jsstring nat) !! k with
    | Some v => Some v
    | None => own o !! k
    end.
Proof.
  induction xs as [|[n v] xs IH]; intros o k Hnd Hk.
  - cbn [list_to_map foldr]. now rewrite lookup_empty.
  - apply NoDup_cons in Hnd as [Hn Hnd].
    rewrite assign_all_cons, IH by assumption. cbn [fst snd list_to_map foldr].
    rewrite own_assign by assumption.
    destruct (decide (n = k)) as [->|Hne].
    + rewrite lookup_insert_eq.
      now rewrite (not_elem_of_list_to_map_1 (M := gmap jsstring) xs k Hn).
    + now rewrite lookup_insert_ne.
Qed.

Lemma proto_assign_all xs : forall o,
  NoDup xs.*1 ->
  proto (assign_all o xs)
  = match (list_to_map xs : gmap jsstring nat) !! proto_key with
    | Some v => Some v
    | None => proto o
    end.
Proof.
  induction xs as [|[n v] xs IH]; intros o Hnd.
  - cbn [list_to_map foldr]. now rewrite lookup_empty.
  - apply NoDup_cons in Hnd as [Hn Hnd].
    rewrite assign_all_cons, IH by assumption. cbn [fst snd list_to_map foldr].
    unfold assign. destruct (decide (n = proto_key)) as [->|Hne]; cbn [own proto].
    + rewrite lookup_insert_eq.
      now rewrite (not_elem_of_list_to_map_1 (M := gmap jsstring) xs proto_key Hn).
    + now rewrite lookup_insert_ne.
Qed.

(** The object a list of assignments under distinct names makes of [{}]:
    the names as own properties, but [__proto__] as the prototype. *)
Lemma assign_all_empty xs :
  NoDup xs.*1 ->
  assign_all empty_object xs
  = {| own := delete proto_key (list_to_map xs);
       proto := (list_to_map xs : gmap jsstring nat) !! proto_key |}.
Proof.
  intros Hnd.
  pose proof (proto_assign_all xs empty_object Hnd) as Hp.
  pose proof (own_assign_all_proto empty_object xs) as Hk.
  pose proof (fun k => own_assign_all_lookup xs empty_object k Hnd) as Ho.
  destruct (assign_all empty_object xs) as [m p]. cbn [own proto] in *. f_equal.
  - apply map_eq. intros k. destruct (decide (k = proto_key)) as [->|Hne].
    + now rewrite lookup_delete_eq, Hk.
    + rewrite lookup_delete_ne by congruence. rewrite Ho by assumption.
      now destruct (list_to_map xs !! k).
  - rewrite Hp. now destruct (list_to_map xs !! proto_key).
Qed.

(** When no entry is too big, the callbacks only assign. *)
Lemma nothing_too_big es h upload :
  (forall name l, (name, l) ∈ es ->
     exists d, h !! l = Some d /\ uint8ArrayIfBig d = Returned None) ->
  flat_map (kept h) es = es /\ flat_map (asked h) es = [] /\
  flat_map (waits h upload) es = [] /\ flat_map (throws h upload) es = [].
Proof.
  induction es as [|[name l] es IH]; intros H; [now repeat split|].
  destruct (H name l) as (d & Hd & Hsw); [left|].
  destruct IH as (A & B & C & D).
  { intros n l' Hin. apply (H n l'). now right. }
  cbn [flat_map]. unfold kept at 1, asked at 1, waits at 1, throws at 1.
  cbn [fst snd]. rewrite Hd, Hsw. simpl. rewrite A, B, C, D. now repeat split.
Qed.

(** The hash of an object after the call: the one it had, or the digest of
    the bytes of an entry whose upload answered with it. *)
Lemma objects_after es h upload l (d : DataRef) :
  h !! l = Some d ->
  exists d' : DataRef,
    objects (copyLargeBlobsToRemote (Some es) h upload) !! l = Some d' /\
    value d' = value d /\ type d' = type d /\
    (hash d' = hash d \/
     exists name2 l2 d2 buf2,
       (name2, l2) ∈ es /\ h !! l2 = Some d2 /\
       uint8ArrayIfBig d2 = Returned (Some buf2) /\
       upload buf2 = Resolves l /\
       hash d' = Some (sha1 (JBytes buf2))).
Proof.
  intros Hl. rewrite call_fields. cbn [objects].
  rewrite foldl_write_lookup, Hl. cbn [fmap option_fmap option_map].
  destruct (written _ l) as [hsh|] eqn:Hw.
  - eexists. split; [reflexivity|]. split; [reflexivity|]. split; [reflexivity|].
    right. apply written_Some in Hw as [name2 Hw].
    apply waits_elem in Hw as (n2 & l2 & d2 & buf2 & Hin2 & Hl2 & Hsw2 & _ & Heq).
    injection Heq as _ -> Hup.
    exists n2, l2, d2, buf2. now repeat split.
  - exists d. now repeat split; try left.
Qed.

End Facts.

End ByReferenceFacts.

(** ** The scenarios of the specification *)

Example atob_of_the_text_of_hello :
  Base64.atob (js "aGVsbG8=") = Returned (js "hello") /\
  Base64.atob (js "aGVsbG8") = Returned (js "hello") /\
  Base64.atob (js " aGVs bG8= ") = Returned (js "hello") /\
  Base64.atob (js "a") = Threw InvalidCharacterError /\
  Base64.atob (js "a:b=") = Threw InvalidCharacterError.
Proof. repeat split. Qed.

(** [a] stays, [b] is replaced by the uploaded reference, which carries the
    digest of the 201 octets of the string. *)
Example scenario_is_offloaded :
  @copyLargeBlobsToRemote sample_runtime (Some scenario) sample_upload
  = (Returned (Some scenario_result),
     [(js "b", Unibabel.binaryStringToBuffer (letters 201))]).
Proof. vm_compute. reflexivity. Qed.

(** An 8-character value with the threshold at 200: returned inline with
    its digest, and [upload] is not called. *)
Example base64ToDataRef_of_a_short_value :
  @base64ToDataRef sample_runtime (js "aGVsbG8=") default_options
  = (Returned {| value := JStr (js "aGVsbG8=");
                 hash := Some (@sha1 sample_runtime (JStr (js "aGVsbG8=")));
                 type := Some DataRefType.base64 |}, []).
Proof. reflexivity. Qed.

(** * The claims *)

(** C1 (the code departs from its documentation).  For a DataRef without
    [type] whose value is the object [{a: 1}], the type [dataRefToBlob] and
    [copyLargeBlobsToRemote] work with is [base64], not [json]: the blob
    conversion hands the value to the base64 decoder (which rejects the text
    of an object), and the offload policy reads its [length] property instead
    of serialising it. *)
Theorem absent_type_of_object_is_base64 :
  effective_type object_without_type = DataRefType.base64 /\
  (forall rt : Runtime,
      @dataRefToBlob rt object_without_type
      = Build_Blob <$> Unibabel.base64ToBuffer (ToString (value object_without_type))) /\
  (forall rt : Runtime, @uint8ArrayIfBig rt object_without_type = Returned None) /\
  @dataRefToBlob sample_runtime object_without_type = Threw InvalidCharacterError.
Proof. repeat split. Qed.




(** C3, as stated, fails: [copyLargeBlobsToRemote] uploads a payload only
    when its size exceeds 200, so a [utf8] entry of exactly 200 units, which
    is at the threshold and decodes, is returned as it was and [upload] is
    not called. *)
Lemma payload_at_threshold_not_uploaded :
  @inline_size sample_runtime (inline DataRefType.utf8 (letters 200)) = Some 200%Z /\
  (exists buf,
      @decoded_bytes sample_runtime (inline DataRefType.utf8 (letters 200))
      = Returned buf) /\
  @copyLargeBlobsToRemote sample_runtime (Some boundary_scenario) sample_upload
  = (Returned (Some boundary_scenario), []).
Proof.
  split; [reflexivity|]. split; [eexists; reflexivity|].
  vm_compute. reflexivity.
Qed.

(** C3 (amended).  [upload] is called exactly once for an oversized payload:
    once, with the decoded bytes, for an entry of the mapping whose size is
    above 200 and whose payload decodes; once, with the value, by
    [base64ToDataRef] for a value whose length is [maxLengthUnmodified] (200
    when not given) or more. *)
Theorem above_threshold_uploads_once {rt : Runtime}
    (inputs : InputsRefs) (upload : UploadFunc) (name : jsstring)
    (d : DataRef) (n : Z) (buf : Uint8Array)
    (base64 : jsstring) (options : Options) :
  (inputs !! name = Some d ->
   inline_size d = Some n ->
   (ENV_VAR_DATA_ITEM_LENGTH_MAX < n)%Z ->
   decoded_bytes d = Returned buf ->
   calls_for name (copyLargeBlobsToRemote (Some inputs) upload).2 = [buf]) /\
  ((default 200 (maxLengthUnmodified options) <= len base64)%Z ->
   (base64ToDataRef base64 options).2 = [base64]).
Proof.
  split.
  - intros Hd Hsize Hn Hdec.
    assert (Hsw : uint8ArrayIfBig d = Returned (Some buf))
      by (rewrite (uint8ArrayIfBig_big d n Hsize Hn), Hdec; reflexivity).
    now destruct (offloaded_entry inputs upload name d buf Hd Hsw).
  - intros Hlen. unfold base64ToDataRef.
    now destruct (Z.ltb_spec (len base64) (default 200%Z (maxLengthUnmodified options)));
      [lia|].
Qed.

Lemma above_threshold_uploads_once_witness :
  calls_for (js "b")
    (@copyLargeBlobsToRemote sample_runtime (Some scenario) sample_upload).2
  = [Unibabel.binaryStringToBuffer (letters 201)] /\
  (@base64ToDataRef sample_runtime (js "aGVsbG8=") threshold_4).2 = [js "aGVsbG8="].
Proof.
  split.
  - apply (proj1 (@above_threshold_uploads_once sample_runtime scenario sample_upload
                    (js "b") (inline DataRefType.utf8 (letters 201)) 201%Z
                    (Unibabel.binaryStringToBuffer (letters 201))
                    (js "aGVsbG8=") threshold_4));
      reflexivity.
  - apply (proj2 (@above_threshold_uploads_once sample_runtime scenario sample_upload
                    (js "b") (inline DataRefType.utf8 (letters 201)) 201%Z
                    (Unibabel.binaryStringToBuffer (letters 201))
                    (js "aGVsbG8=") threshold_4)).
    vm_compute. discriminate.
Defined.

(** C4, as stated, fails: [base64ToDataRef] hashes the base64 text it was
    given, not the bytes the text decodes to.  With a digest that tells
    contents apart, the hash of the reference returned for the text of
    [hello] is not the digest of the bytes of [hello]. *)
Lemma base64ToDataRef_hashes_the_text :
  Unibabel.base64ToBuffer (js "aGVsbG8=") = Returned hello /\
  exists r,
    (@base64ToDataRef sample_runtime (js "aGVsbG8=") threshold_4).1 = Returned r /\
    hash r = Some (@sha1 sample_runtime (JStr (js "aGVsbG8="))) /\
    hash r <> Some (@sha1 sample_runtime (JBytes hello)).
Proof.
  split; [reflexivity|]. eexists. split; [reflexivity|]. split; [reflexivity|].
  vm_compute. discriminate.
Qed.

(** C4 (amended).  When [upload] answers an offloaded entry with an object
    it gives for no other bytes uploaded in the call, the DataRef installed
    in the result is that object with its [hash] overwritten by a digest the
    caller computes with [objectHash.sha1]: the digest of the decoded bytes
    of the entry.  In [base64ToDataRef] (when [ignoreHash] is not set) the
    hash of the reference returned is overwritten likewise, by the digest of
    the base64 string itself. *)
Theorem offloaded_reference_carries_local_hash {rt : Runtime}
    (es : ByReference.properties) (h : ByReference.store)
    (uploadFunc : ByReference.Upload) (name : jsstring) (l : nat)
    (d : DataRef) (buf : Uint8Array) (res : ByReference.object)
    (base64 : jsstring) (options : Options) (remoteRef : DataRef) :
  (NoDup es.*1 ->
   (name, l) ∈ es ->
   h !! l = Some d ->
   uint8ArrayIfBig d = Returned (Some buf) ->
   (forall name2 l2 d2 buf2,
       (name2, l2) ∈ es -> h !! l2 = Some d2 ->
       uint8ArrayIfBig d2 = Returned (Some buf2) ->
       uploadFunc buf2 = uploadFunc buf -> buf2 = buf) ->
   ByReference.returned (ByReference.copyLargeBlobsToRemote (Some es) h uploadFunc)
   = Returned (Some res) ->
   decoded_bytes d = Returned buf /\
   exists answered uploaded,
     uploadFunc buf = ByReference.Resolves answered /\
     h !! answered = Some uploaded /\
     ByReference.get res name = Some answered /\
     ByReference.objects (ByReference.copyLargeBlobsToRemote (Some es) h uploadFunc)
       !! answered
     = Some {| value := value uploaded;
               hash := Some (sha1 (JBytes buf));
               type := type uploaded |}) /\
  ((default 200 (maxLengthUnmodified options) <= len base64)%Z ->
   upload options base64 = Returned remoteRef ->
   default false (ignoreHash options) = false ->
   (base64ToDataRef base64 options).1
   = Returned {| value := value remoteRef;
                 hash := Some (sha1 (JStr base64));
                 type := type remoteRef |}).
Proof.
  split.
  - intros Hnd Hin Hl Hsw Hfresh Hres.
    split; [now apply uint8ArrayIfBig_decoded|].
    pose proof (ByReferenceFacts.call_returned es h uploadFunc) as Hcall.
    rewrite Hres in Hcall. destruct Hcall as [Hr Hok]. injection Hr as ->.
    pose proof (Hok name l Hin) as Hme.
    unfold ByReferenceTerms.entry_fails in Hme. rewrite Hl, Hsw in Hme.
    destruct (uploadFunc buf) as [answered|e|e] eqn:Hup; try (now destruct Hme).
    destruct (h !! answered) as [uploaded|] eqn:Hans; [|now destruct Hme].
    assert (Hset : ByReferenceTerms.settled h uploadFunc (name, l) = Some answered).
    { unfold ByReferenceTerms.settled. simpl. now rewrite Hl, Hsw, Hup, Hans. }
    exists answered, uploaded. split; [reflexivity|]. split; [exact Hans|]. split.
    + apply ByReferenceFacts.get_assign_all.
      * exists answered. apply ByReferenceFacts.assignments_elem. eauto.
      * intros v' Hv'. apply ByReferenceFacts.assignments_elem in Hv' as (l' & Hin' & Hs').
        rewrite (ByReferenceFacts.unique_property es name l' l Hnd Hin' Hin) in Hs'.
        congruence.
    + rewrite ByReferenceFacts.call_fields. simpl.
      rewrite ByReferenceFacts.foldl_write_lookup, Hans. simpl.
      assert (Hmine : (name, sha1 (JBytes buf), ByReference.Resolves answered)
                      ∈ flat_map (ByReferenceTerms.waits h uploadFunc) es).
      { apply ByReferenceFacts.waits_elem. exists name, l, d, buf.
        rewrite Hup. repeat split; try assumption. discriminate. }
      destruct (ByReferenceFacts.written_is_Some _ _ _ _ Hmine) as [hsh Hw].
      rewrite Hw. do 2 f_equal.
      apply ByReferenceFacts.written_Some in Hw as [name2 Hw].
      apply ByReferenceFacts.waits_elem in Hw
        as (n2 & l2 & d2 & buf2 & Hin2 & Hl2 & Hsw2 & _ & Heq).
      injection Heq as _ -> Hsame.
      rewrite (Hfresh n2 l2 d2 buf2 Hin2 Hl2 Hsw2); [reflexivity|].
      congruence.
  - intros Hlen Hup Hign. unfold base64ToDataRef.
    destruct (Z.ltb_spec (len base64) (default 200%Z (maxLengthUnmodified options)));
      [lia|].
    simpl. rewrite Hup, Hign. reflexivity.
Qed.

Lemma offloaded_reference_carries_local_hash_witness :
  (@decoded_bytes sample_runtime (inline DataRefType.utf8 (letters 201))
   = Returned (Unibabel.binaryStringToBuffer (letters 201)) /\
   exists answered uploaded,
     fresh_upload (Unibabel.binaryStringToBuffer (letters 201))
     = ByReference.Resolves answered /\
     sample_heap !! answered = Some uploaded /\
     ByReference.get
       {| ByReference.own := <[js "p" := 9%nat]> {[ js "q" := 10%nat ]};
          ByReference.proto := None |} (js "p") = Some answered /\
     ByReference.objects
       (@ByReference.copyLargeBlobsToRemote sample_runtime (Some two_big)
          sample_heap fresh_upload) !! answered
     = Some {| value := value uploaded;
               hash := Some digest_201;
               type := type uploaded |}) /\
  (@base64ToDataRef sample_runtime (js "aGVsbG8=") threshold_4).1
  = Returned {| value := value remote_ref;
                hash := Some (@sha1 sample_runtime (JStr (js "aGVsbG8=")));
                type := type remote_ref |}.
Proof.
  split.
  - apply (proj1 (@offloaded_reference_carries_local_hash sample_runtime
                    two_big sample_heap fresh_upload (js "p") 2%nat
                    (inline DataRefType.utf8 (letters 201))
                    (Unibabel.binaryStringToBuffer (letters 201))
                    {| ByReference.own := <[js "p" := 9%nat]> {[ js "q" := 10%nat ]};
                       ByReference.proto := None |}
                    (js "aGVsbG8=") threshold_4 remote_ref)).
    + apply (bool_decide_unpack _). vm_compute. reflexivity.
    + left.
    + reflexivity.
    + reflexivity.
    + intros name2 l2 d2 buf2 Hin Hl2 Hsw2 Hsame. unfold two_big in Hin.
      apply elem_of_cons in Hin as [[= -> ->]|Hin].
      * vm_compute in Hl2. injection Hl2 as <-.
        vm_compute in Hsw2. now injection Hsw2 as <-.
      * apply list_elem_of_singleton in Hin as [= -> ->].
        vm_compute in Hl2. injection Hl2 as <-.
        vm_compute in Hsw2. injection Hsw2 as <-.
        vm_compute in Hsame. discriminate.
    + vm_compute. reflexivity.
  - apply (proj2 (@offloaded_reference_carries_local_hash sample_runtime
                    two_big sample_heap fresh_upload (js "p") 2%nat
                    (inline DataRefType.utf8 (letters 201))
                    (Unibabel.binaryStringToBuffer (letters 201))
                    {| ByReference.own := <[js "p" := 9%nat]> {[ js "q" := 10%nat ]};
                       ByReference.proto := None |}
                    (js "aGVsbG8=") threshold_4 remote_ref));
      [vm_compute; discriminate | reflexivity | reflexivity].
Defined.

(** Why the proviso: when [upload] answers two entries with the same
    object, both names hold that one object, whose hash is the digest of the
    entry whose callback went on last.  With the uploads settling in the
    order of their calls that is the digest of [q], not of [p]. *)
Example shared_answer_carries_the_last_digest :
  let call := @ByReference.copyLargeBlobsToRemote sample_runtime (Some two_big)
                sample_heap shared_upload in
  (exists res, ByReference.returned call = Returned (Some res) /\
               ByReference.get res (js "p") = Some 9%nat /\
               ByReference.get res (js "q") = Some 9%nat) /\
  hash <$> ByReference.objects call !! 9%nat
  = Some (Some (@sha1 sample_runtime
                  (JBytes (Unibabel.binaryStringToBuffer (repeat 98 201))))) /\
  hash <$> ByReference.objects call !! 9%nat <> Some (Some digest_201).
Proof.
  cbv zeta. split; [|split].
  - eexists. split; [vm_compute; reflexivity|]. split; reflexivity.
  - vm_compute. reflexivity.
  - vm_compute. discriminate.
Qed.

(** C5.  When the upload asked for by an entry of the mapping fails, the call
    of [copyLargeBlobsToRemote] fails: it returns no mapping. *)
Theorem failed_upload_fails_the_call {rt : Runtime}
    (inputs : InputsRefs) (upload : UploadFunc) (name : jsstring)
    (d : DataRef) (buf : Uint8Array) (e : error) :
  inputs !! name = Some d ->
  uint8ArrayIfBig d = Returned (Some buf) ->
  upload buf = Threw e ->
  exists e', (copyLargeBlobsToRemote (Some inputs) upload).1 = Threw e'.
Proof.
  intros Hd Hsw Hup. apply (failed_entry inputs upload name d Hd).
  right. exists buf, e. now split.
Qed.

Lemma failed_upload_fails_the_call_witness :
  exists e',
    (@copyLargeBlobsToRemote sample_runtime (Some scenario) failing_upload).1 = Threw e'.
Proof.
  apply (@failed_upload_fails_the_call sample_runtime scenario failing_upload
           (js "b") (inline DataRefType.utf8 (letters 201))
           (Unibabel.binaryStringToBuffer (letters 201))
           (External "upload failed"));
    reflexivity.
Defined.






(** C8.  [dataRefToBlob] fails on every DataRef whose type is [hash]: it
    throws its cannot-create-blob message and returns no blob. *)
Theorem hash_cannot_become_blob {rt : Runtime} (d : DataRef) :
  effective_type d = DataRefType.hash ->
  dataRefToBlob d = Threw (ThrownString "Cannot crate blob from type=hash").
Proof. intros Ht. unfold dataRefToBlob. now rewrite Ht. Qed.

Lemma hash_cannot_become_blob_witness :
  @dataRefToBlob sample_runtime (inline DataRefType.hash (letters 300))
  = Threw (ThrownString "Cannot crate blob from type=hash").
Proof.
  apply (@hash_cannot_become_blob sample_runtime
           (inline DataRefType.hash (letters 300))).
  reflexivity.
Defined.

(** C9.  Round trip: the base64 text of a byte sequence [B], as a [base64]
    DataRef built directly or by [base64ToDataRef] below the threshold, is
    converted by [dataRefToBlob] to a blob whose bytes are [B]; a [utf8]
    DataRef of a string is converted to the UTF-8 of the string, that is to
    octets that decode, as the Unicode standard defines UTF-8, to the scalar
    values the string is the UTF-16 of; a [json] DataRef of a value is
    converted likewise to the UTF-8 of its JSON text.  A string with a lone
    surrogate, which is the UTF-16 of nothing, has no UTF-8: the conversion
    throws. *)
Theorem blob_round_trip {rt : Runtime}
    (B : Uint8Array) (h : option jsstring) (options : Options)
    (cps : list N) (v : jsvalue) (cps' : list N) (s : jsstring) :
  (exists base64,
      Unibabel.bufferToBase64 B = Returned base64 /\
      dataRefToBlob {| value := JStr base64; hash := h;
                       type := Some DataRefType.base64 |}
      = Returned {| blob_bytes := B |} /\
      ((len base64 < default 200 (maxLengthUnmodified options))%Z ->
       exists d, (base64ToDataRef base64 options).1 = Returned d /\
                 dataRefToBlob d = Returned {| blob_bytes := B |})) /\
  (forallb Unicode.is_scalar cps = true ->
   exists bytes,
     dataRefToBlob {| value := JStr (Unicode.utf16 cps); hash := h;
                      type := Some DataRefType.utf8 |}
     = Returned {| blob_bytes := bytes |} /\
     Unicode.utf8_decode (Unibabel.bufferToBinaryString bytes) = Some cps) /\
  (forallb Unicode.is_scalar cps' = true ->
   JSON_stringify v = Unicode.utf16 cps' ->
   exists bytes,
     dataRefToBlob {| value := v; hash := h; type := Some DataRefType.json |}
     = Returned {| blob_bytes := bytes |} /\
     Unicode.utf8_decode (Unibabel.bufferToBinaryString bytes) = Some cps') /\
  (Forall (fun c => c < 0x10000) s ->
   (forall cps0, forallb Unicode.is_scalar cps0 = true -> s <> Unicode.utf16 cps0) ->
   dataRefToBlob {| value := JStr s; hash := h; type := Some DataRefType.utf8 |}
   = Threw URIError).
Proof.
  assert (Hutf8 : forall cps0,
             forallb Unicode.is_scalar cps0 = true ->
             exists bytes,
               Unibabel.utf8ToBuffer (Unicode.utf16 cps0) = Returned bytes /\
               Unicode.utf8_decode (Unibabel.bufferToBinaryString bytes) = Some cps0).
  { intros cps0 Hsc.
    exists (Unibabel.binaryStringToBuffer (Utf8.encode cps0)). split.
    - unfold Unibabel.utf8ToBuffer, Unibabel.utf8ToBinaryString.
      now rewrite UnicodeFacts.code_points_utf16.
    - rewrite UnibabelFacts.binary_string_of_its_buffer
        by now apply UnicodeFacts.encode_octets.
      now apply UnicodeFacts.utf8_decode_encode. }
  split; [|split; [|split]].
  - exists (Base64.text (Unibabel.bufferToBinaryString B)).
    pose proof (UnibabelFacts.bufferToBase64_text B) as Htext.
    pose proof (UnibabelFacts.base64ToBuffer_bufferToBase64 B _ Htext) as Hback.
    split; [exact Htext|]. split.
    + unfold dataRefToBlob. simpl. now rewrite Hback.
    + intros Hlen. unfold base64ToDataRef.
      apply Z.ltb_lt in Hlen. rewrite Hlen. simpl.
      eexists. split; [reflexivity|].
      unfold dataRefToBlob. simpl. now rewrite Hback.
  - intros Hsc. destruct (Hutf8 cps Hsc) as (bytes & Hbytes & Hdec).
    exists bytes. split; [|exact Hdec].
    unfold dataRefToBlob. simpl. now rewrite Hbytes.
  - intros Hsc Hjson. destruct (Hutf8 cps' Hsc) as (bytes & Hbytes & Hdec).
    exists bytes. split; [|exact Hdec].
    unfold dataRefToBlob. simpl. now rewrite Hjson, Hbytes.
  - intros Hunits Hlone.
    unfold dataRefToBlob, Unibabel.utf8ToBuffer, Unibabel.utf8ToBinaryString. simpl.
    destruct (Utf8.code_points s) as [cps0|] eqn:E; [|reflexivity].
    destruct (UnicodeFacts.code_points_inv (length s) s cps0) as [Hs Hsc];
      [lia | assumption | assumption |].
    now destruct (Hlone cps0 Hsc).
Qed.

Lemma blob_round_trip_witness :
  (exists base64,
      Unibabel.bufferToBase64 hello = Returned base64 /\
      @dataRefToBlob sample_runtime
        {| value := JStr base64; hash := None; type := Some DataRefType.base64 |}
      = Returned {| blob_bytes := hello |} /\
      exists d, (@base64ToDataRef sample_runtime base64 default_options).1 = Returned d /\
                @dataRefToBlob sample_runtime d = Returned {| blob_bytes := hello |}) /\
  (exists bytes,
      @dataRefToBlob sample_runtime (inline DataRefType.utf8 (Unicode.utf16 accented))
      = Returned {| blob_bytes := bytes |} /\
      Unicode.utf8_decode (Unibabel.bufferToBinaryString bytes) = Some accented) /\
  (exists bytes,
      @dataRefToBlob sample_runtime
        {| value := JStr (js "hi"); hash := None; type := Some DataRefType.json |}
      = Returned {| blob_bytes := bytes |} /\
      Unicode.utf8_decode (Unibabel.bufferToBinaryString bytes)
      = Some [34; 104; 105; 34]) /\
  @dataRefToBlob sample_runtime (inline DataRefType.utf8 [0xD83D]) = Threw URIError.
Proof.
  pose proof (@blob_round_trip sample_runtime hello None default_options
                accented (JStr (js "hi")) [34; 104; 105; 34] [0xD83D])
    as ((base64 & Htext & Hblob & Hvia) & Hutf8 & Hjson & Hlone).
  split; [|split; [|split]].
  - exists base64. split; [exact Htext|]. split; [exact Hblob|].
    apply Hvia. vm_compute in Htext. injection Htext as <-. reflexivity.
  - apply Hutf8. reflexivity.
  - apply Hjson; reflexivity.
  - apply Hlone.
    + repeat constructor.
    + intros cps0 Hsc Heq.
      pose proof (UnicodeFacts.code_points_utf16 cps0 Hsc) as Hcp.
      rewrite <- Heq in Hcp. discriminate.
Defined.




(** * Further properties of [dataref.ts] *)

(** ** The batch as a whole *)

Section BatchFacts.

Context {rt : Runtime}.
Implicit Types (d : DataRef) (upload : UploadFunc) (inputs : InputsRefs).

Lemma run_uploads inputs upload :
  uploads (run (map_to_list inputs) upload)
  = flat_map (fun e => pair e.1 <$> requests e.2) (map_to_list inputs).
Proof. unfold run. now rewrite foldl_callback. Qed.

Lemma requests_names_sublist (l : list (jsstring * DataRef)) :
  (flat_map (fun e => pair e.1 <$> requests e.2) l).*1 `sublist_of` l.*1.
Proof.
  induction l as [|[name d] l IH]; simpl; [constructor|].
  rewrite fmap_app. unfold requests at 1.
  destruct (uint8ArrayIfBig d) as [[buf|]|e]; simpl.
  - now apply sublist_skip.
  - now apply sublist_cons.
  - now apply sublist_cons.
Qed.

Lemma elem_of_flat_map {A B : Type} (f : A -> list B) (xs : list A) (y : B) :
  y ∈ flat_map f xs -> exists x, x ∈ xs /\ y ∈ f x.
Proof.
  induction xs as [|x xs IH]; simpl.
  - intros H. inversion H.
  - intros H. apply elem_of_app in H as [H|H].
    + exists x. split; [left | exact H].
    + destruct (IH H) as (x' & Hx' & Hy). exists x'. split; [now right | exact Hy].
Qed.

(** A mapping none of whose entries is too big is returned as it is. *)
Lemma all_kept inputs upload :
  (forall name d, inputs !! name = Some d -> uint8ArrayIfBig d = Returned None) ->
  copyLargeBlobsToRemote (Some inputs) upload = (Returned (Some inputs), []).
Proof.
  intros Hkept. unfold copyLargeBlobsToRemote.
  assert (Hcalls : uploads (run (map_to_list inputs) upload) = []).
  { rewrite run_uploads. apply flat_map_nil. intros [name d] Hd.
    apply elem_of_map_to_list in Hd. simpl. unfold requests.
    now rewrite (Hkept name d Hd). }
  rewrite Hcalls. f_equal.
  pose proof (settle_run inputs upload) as H.
  destruct (settle _) as [r|e]; simpl.
  - destruct H as [-> _]. do 2 f_equal. apply map_eq. intros k.
    rewrite lookup_omap. destruct (inputs !! k) as [d|] eqn:Hk; simpl; [|reflexivity].
    unfold installed. now rewrite (Hkept k d Hk).
  - destruct H as (name & d & Hd & Hfail).
    apply entry_fails_installed in Hfail. unfold installed in Hfail.
    rewrite (Hkept name d Hd) in Hfail. discriminate.
Qed.


(** The [switch] does not read the hash. *)
Lemma uint8ArrayIfBig_set_hash h d :
  uint8ArrayIfBig (set_hash h d) = uint8ArrayIfBig d.
Proof. reflexivity. Qed.

(** For the inline types the blob holds the decoded bytes. *)
Lemma dataRefToBlob_decoded d :
  effective_type d <> DataRefType.url ->
  effective_type d <> DataRefType.hash ->
  dataRefToBlob d = Build_Blob <$> decoded_bytes d.
Proof.
  unfold dataRefToBlob, decoded_bytes.
  destruct (effective_type d); congruence.
Qed.

End BatchFacts.

(** X1.  The calls of [upload] that [copyLargeBlobsToRemote] makes are fixed
    by the mapping: they are the same whatever [upload] answers, so an upload
    that fails does not keep the other entries from being uploaded. *)
Theorem upload_calls_ignore_upload_answers {rt : Runtime}
    (inputs : option InputsRefs) (upload1 upload2 : UploadFunc) :
  (copyLargeBlobsToRemote inputs upload1).2
  = (copyLargeBlobsToRemote inputs upload2).2.
Proof.
  destruct inputs as [inputs|]; [|reflexivity].
  simpl. now rewrite !run_uploads.
Qed.

(** X2.  [upload] is called at most once for a name, only for names of the
    mapping, and so at most as many times as the mapping has entries. *)
Theorem at_most_one_upload_per_entry {rt : Runtime}
    (inputs : InputsRefs) (upload : UploadFunc) :
  NoDup (copyLargeBlobsToRemote (Some inputs) upload).2.*1 /\
  (forall name, name ∈ (copyLargeBlobsToRemote (Some inputs) upload).2.*1 ->
                is_Some (inputs !! name)) /\
  (length (copyLargeBlobsToRemote (Some inputs) upload).2 <= size inputs)%nat.
Proof.
  simpl. rewrite run_uploads.
  pose proof (requests_names_sublist (map_to_list inputs)) as Hsub.
  split; [|split].
  - exact (sublist_NoDup _ _ (NoDup_fst_map_to_list inputs) Hsub).
  - intros name Hname.
    apply (elem_of_submseteq _ (map_to_list inputs).*1) in Hname;
      [|now apply sublist_submseteq].
    apply list_elem_of_fmap in Hname as ([k d] & -> & Hd).
    apply elem_of_map_to_list in Hd. simpl. eauto.
  - apply sublist_length in Hsub.
    rewrite !length_fmap, length_map_to_list in Hsub. exact Hsub.
Qed.

(** X3.  When no entry of the input is too big, [upload] is not called, no
    object is changed, and the object returned has the objects of the input
    themselves under the names of the input; the one under [__proto__], if
    the input has that key, as its prototype and not as a property. *)
Theorem small_mapping_is_returned_as_is {rt : Runtime}
    (es : ByReference.properties) (h : ByReference.store)
    (upload : ByReference.Upload) :
  NoDup es.*1 ->
  (forall name l, (name, l) ∈ es ->
     exists d, h !! l = Some d /\ uint8ArrayIfBig d = Returned None) ->
  ByReference.copyLargeBlobsToRemote (Some es) h upload
  = {| ByReference.returned :=
         Returned (Some {| ByReference.own :=
                             delete ByReference.proto_key (list_to_map es);
                           ByReference.proto :=
                             (list_to_map es : gmap jsstring nat)
                               !! ByReference.proto_key |});
       ByReference.objects := h;
       ByReference.called := [] |}.
Proof.
  intros Hnd Hsmall. rewrite ByReferenceFacts.call_fields.
  unfold ByReferenceTerms.assignments.
  destruct (ByReferenceFacts.nothing_too_big es h upload Hsmall) as (-> & -> & -> & ->).
  cbn [flat_map foldl app]. rewrite app_nil_r.
  now rewrite ByReferenceFacts.assign_all_empty.
Qed.

Lemma small_mapping_is_returned_as_is_witness :
  @ByReference.copyLargeBlobsToRemote sample_runtime
    (Some [(js "a", 1%nat); (ByReference.proto_key, 9%nat)]) sample_heap
    (fun _ => ByReference.Rejects (External "upload failed"))
  = {| ByReference.returned :=
         Returned (Some {| ByReference.own := {[ js "a" := 1%nat ]};
                           ByReference.proto := Some 9%nat |});
       ByReference.objects := sample_heap;
       ByReference.called := [] |}.
Proof.
  rewrite (@small_mapping_is_returned_as_is sample_runtime
             [(js "a", 1%nat); (ByReference.proto_key, 9%nat)] sample_heap
             (fun _ => ByReference.Rejects (External "upload failed"))).
  - vm_compute. reflexivity.
  - apply (bool_decide_unpack _). vm_compute. reflexivity.
  - intros name l Hin.
    apply elem_of_cons in Hin as [[= -> ->]|Hin];
      [|apply list_elem_of_singleton in Hin as [= -> ->]];
      eexists; split; vm_compute; reflexivity.
Defined.

(** X4.  The error a failed call of [copyLargeBlobsToRemote] reports is the
    error of one of its entries: thrown by the decoding of its payload or by
    the upload of its bytes. *)
Theorem reported_error_comes_from_an_entry {rt : Runtime}
    (inputs : InputsRefs) (upload : UploadFunc) (e : error) :
  (copyLargeBlobsToRemote (Some inputs) upload).1 = Threw e ->
  exists name d,
    inputs !! name = Some d /\
    (uint8ArrayIfBig d = Threw e \/
     exists buf, uint8ArrayIfBig d = Returned (Some buf) /\ upload buf = Threw e).
Proof.
  simpl. unfold settle, run. rewrite foldl_callback. simpl.
  destruct (_ ++ _) as [|e' es] eqn:E; simpl; [discriminate|].
  intros [= ->].
  assert (He : e ∈ flat_map (fun x => throws x.2) (map_to_list inputs)
                   ++ flat_map (fun x => rejections upload x.2) (map_to_list inputs))
    by (rewrite E; left).
  apply elem_of_app in He as [He|He];
    apply elem_of_flat_map in He as ([name d] & Hd & He);
    apply elem_of_map_to_list in Hd; exists name, d; (split; [exact Hd|]);
    simpl in He.
  - left. unfold throws in He.
    destruct (uint8ArrayIfBig d) as [[buf|]|e0];
      [inversion He | inversion He |].
    apply list_elem_of_singleton in He. now subst.
  - right. unfold rejections in He.
    destruct (uint8ArrayIfBig d) as [[buf|]|e0];
      [| inversion He | inversion He].
    exists buf. split; [reflexivity|].
    destruct (upload buf) as [r|e0]; [inversion He|].
    apply list_elem_of_singleton in He. now subst.
Qed.

Lemma reported_error_comes_from_an_entry_witness :
  exists name d,
    scenario !! name = Some d /\
    (@uint8ArrayIfBig sample_runtime d = Threw (External "upload failed") \/
     exists buf, @uint8ArrayIfBig sample_runtime d = Returned (Some buf) /\
                 failing_upload buf = Threw (External "upload failed")).
Proof.
  apply (@reported_error_comes_from_an_entry sample_runtime scenario failing_upload
           (External "upload failed")).
  reflexivity.
Defined.

(** X5.  [copyLargeBlobsToRemote] returns a mapping exactly when no entry
    fails: every payload that is too big decodes and every upload asked for
    succeeds. *)
Theorem call_succeeds_iff_no_entry_fails {rt : Runtime}
    (inputs : InputsRefs) (upload : UploadFunc) :
  (exists r, (copyLargeBlobsToRemote (Some inputs) upload).1 = Returned (Some r)) <->
  (forall name d, inputs !! name = Some d -> ~ entry_fails upload d).
Proof.
  simpl. pose proof (settle_run inputs upload) as H.
  destruct (settle _) as [r|e]; simpl.
  - split; [intros _; apply H | eauto].
  - destruct H as (name & d & Hd & Hfail). split.
    + intros [r [=]].
    + intros Hok. now destruct (Hok name d Hd).
Qed.

Lemma call_succeeds_iff_no_entry_fails_witness :
  exists r,
    (@copyLargeBlobsToRemote sample_runtime (Some small_scenario) failing_upload).1
    = Returned (Some r).
Proof.
  apply (proj2 (@call_succeeds_iff_no_entry_fails sample_runtime small_scenario
                  failing_upload)).
  intros name d Hd. unfold small_scenario in Hd.
  apply lookup_singleton_Some in Hd as [_ <-].
  rewrite entry_fails_installed. vm_compute. discriminate.
Defined.

(** ** Values the [switch] does not expect *)

(** X6.  An entry whose value is [null] and whose type is not [json] or
    [hash] makes the call fail: reading the [length] of [null] throws a
    [TypeError], and [upload] is not called for the entry. *)
Theorem null_value_fails_the_call {rt : Runtime}
    (inputs : InputsRefs) (upload : UploadFunc) (name : jsstring) (d : DataRef) :
  inputs !! name = Some d ->
  value d = JNull ->
  effective_type d <> DataRefType.json ->
  effective_type d <> DataRefType.hash ->
  uint8ArrayIfBig d = Threw TypeError /\
  calls_for name (copyLargeBlobsToRemote (Some inputs) upload).2 = [] /\
  exists e, (copyLargeBlobsToRemote (Some inputs) upload).1 = Threw e.
Proof.
  intros Hd Hv Hj Hh.
  assert (Hsw : uint8ArrayIfBig d = Threw TypeError).
  { unfold uint8ArrayIfBig. rewrite Hv.
    destruct (effective_type d); try congruence; reflexivity. }
  split; [exact Hsw|]. split.
  - simpl. rewrite run_calls_for, Hd. unfold requests. now rewrite Hsw.
  - apply (failed_entry inputs upload name d Hd). left. eauto.
Qed.

Lemma null_value_fails_the_call_witness :
  @uint8ArrayIfBig sample_runtime
    {| value := JNull; hash := None; type := Some DataRefType.utf8 |}
  = Threw TypeError /\
  calls_for (js "n")
    (@copyLargeBlobsToRemote sample_runtime (Some null_scenario) sample_upload).2 = [] /\
  exists e,
    (@copyLargeBlobsToRemote sample_runtime (Some null_scenario) sample_upload).1
    = Threw e.
Proof.
  apply (@null_value_fails_the_call sample_runtime null_scenario sample_upload (js "n")
           {| value := JNull; hash := None; type := Some DataRefType.utf8 |});
    first [reflexivity | discriminate].
Defined.



(** ** Offloading and converting *)

(** X8.  Offloading keeps the content: for an entry that is not of type
    [url], the bytes [copyLargeBlobsToRemote] uploads are the bytes of the
    blob [dataRefToBlob] makes of the entry. *)
Theorem uploaded_bytes_are_the_blob {rt : Runtime}
    (inputs : InputsRefs) (upload : UploadFunc) (name : jsstring)
    (d : DataRef) (buf : Uint8Array) :
  inputs !! name = Some d ->
  effective_type d <> DataRefType.url ->
  uint8ArrayIfBig d = Returned (Some buf) ->
  calls_for name (copyLargeBlobsToRemote (Some inputs) upload).2 = [buf] /\
  dataRefToBlob d = Returned {| blob_bytes := buf |}.
Proof.
  intros Hd Hu Hsw. split.
  - now destruct (offloaded_entry inputs upload name d buf Hd Hsw).
  - rewrite dataRefToBlob_decoded; [|exact Hu|].
    + now rewrite (uint8ArrayIfBig_decoded d buf Hsw).
    + intros Hh. unfold uint8ArrayIfBig in Hsw. now rewrite Hh in Hsw.
Qed.

Lemma uploaded_bytes_are_the_blob_witness :
  calls_for (js "b")
    (@copyLargeBlobsToRemote sample_runtime (Some scenario) sample_upload).2
  = [Unibabel.binaryStringToBuffer (letters 201)] /\
  @dataRefToBlob sample_runtime (inline DataRefType.utf8 (letters 201))
  = Returned {| blob_bytes := Unibabel.binaryStringToBuffer (letters 201) |}.
Proof.
  apply (@uploaded_bytes_are_the_blob sample_runtime scenario sample_upload (js "b")
           (inline DataRefType.utf8 (letters 201))
           (Unibabel.binaryStringToBuffer (letters 201)));
    first [reflexivity | discriminate].
Defined.

(** X9.  When the references [upload] answers with are not themselves too
    big, a second pass over the mapping a call returned changes nothing and
    calls no upload. *)
Theorem second_pass_changes_nothing {rt : Runtime}
    (inputs : InputsRefs) (upload upload' : UploadFunc) (r : InputsRefs) :
  (forall buf uploaded,
      upload buf = Returned uploaded -> uint8ArrayIfBig uploaded = Returned None) ->
  (copyLargeBlobsToRemote (Some inputs) upload).1 = Returned (Some r) ->
  copyLargeBlobsToRemote (Some r) upload' = (Returned (Some r), []).
Proof.
  intros Hup Hr. apply copy_returned in Hr as [-> _].
  apply all_kept. intros name d'. rewrite lookup_omap.
  destruct (inputs !! name) as [d|]; simpl; [|discriminate].
  unfold installed.
  destruct (uint8ArrayIfBig d) as [[buf|]|e] eqn:Hsw; [| | discriminate].
  - destruct (upload buf) as [uploaded|e] eqn:Hu; [|discriminate].
    intros [= <-]. rewrite uint8ArrayIfBig_set_hash. now apply (Hup buf).
  - now intros [= <-].
Qed.

Lemma second_pass_changes_nothing_witness :
  @copyLargeBlobsToRemote sample_runtime (Some scenario_result) failing_upload
  = (Returned (Some scenario_result), []).
Proof.
  apply (@second_pass_changes_nothing sample_runtime scenario sample_upload
           failing_upload scenario_result).
  - intros buf uploaded [= <-]. reflexivity.
  - vm_compute. reflexivity.
Defined.



(** ** [base64ToDataRef] *)

(** X11.  [base64ToDataRef] fails exactly when the value is not below the
    threshold and its upload fails, and then with the error of the upload;
    below the threshold it cannot fail. *)
Theorem base64ToDataRef_fails_iff_upload_fails {rt : Runtime}
    (base64 : jsstring) (options : Options) (e : error) :
  (base64ToDataRef base64 options).1 = Threw e <->
  (default 200 (maxLengthUnmodified options) <= len base64)%Z /\
  upload options base64 = Threw e.
Proof.
  unfold base64ToDataRef.
  destruct (Z.ltb_spec (len base64) (default 200%Z (maxLengthUnmodified options)));
    simpl.
  - split; [discriminate | lia].
  - destruct (upload options base64) as [remoteRef|e0]; simpl.
    + split; [discriminate | now intros [_ [=]]].
    + split; [now intros [= ->] | now intros [_ [= ->]]].
Qed.

Lemma base64ToDataRef_fails_iff_upload_fails_witness :
  (@base64ToDataRef sample_runtime (js "aGVsbG8=") failing_options).1
  = Threw (External "upload failed").
Proof.
  apply (proj2 (@base64ToDataRef_fails_iff_upload_fails sample_runtime
                  (js "aGVsbG8=") failing_options (External "upload failed"))).
  split; [vm_compute; discriminate | reflexivity].
Defined.

(** X12.  With [ignoreHash] set, [base64ToDataRef] computes no digest: below
    the threshold the reference it returns has no hash, and at or above it
    the answer of [upload] is returned as it is, with the hash the store gave
    it. *)
Theorem ignoreHash_computes_no_digest {rt : Runtime}
    (base64 : jsstring) (options : Options) :
  default false (ignoreHash options) = true ->
  ((len base64 < default 200 (maxLengthUnmodified options))%Z ->
   (base64ToDataRef base64 options).1
   = Returned {| value := JStr base64; hash := None;
                 type := Some DataRefType.base64 |}) /\
  ((default 200 (maxLengthUnmodified options) <= len base64)%Z ->
   (base64ToDataRef base64 options).1 = upload options base64).
Proof.
  intros Hign. unfold base64ToDataRef. rewrite Hign. split; intros Hlen.
  - apply Z.ltb_lt in Hlen. now rewrite Hlen.
  - destruct (Z.ltb_spec (len base64) (default 200%Z (maxLengthUnmodified options)));
      [lia|].
    simpl. now destruct (upload options base64).
Qed.

Lemma ignoreHash_computes_no_digest_witness :
  (@base64ToDataRef sample_runtime (js "aGk") unhashed_options).1
  = Returned {| value := JStr (js "aGk"); hash := None;
                type := Some DataRefType.base64 |} /\
  (@base64ToDataRef sample_runtime (js "aGVsbG8=") unhashed_options).1
  = upload unhashed_options (js "aGVsbG8=").
Proof.
  split.
  - apply (proj1 (@ignoreHash_computes_no_digest sample_runtime (js "aGk")
                    unhashed_options eq_refl)).
    vm_compute. reflexivity.
  - apply (proj2 (@ignoreHash_computes_no_digest sample_runtime (js "aGVsbG8=")
                    unhashed_options eq_refl)).
    vm_compute. discriminate.
Defined.



(** ** What is not consulted *)

(** X14.  The hash an entry carries plays no part: with other hashes on the
    entries of the mapping the same uploads are called for every name, and
    [dataRefToBlob] makes the same blob of a reference whatever its hash. *)
Theorem stored_hash_is_not_consulted {rt : Runtime}
    (inputs : InputsRefs) (upload : UploadFunc) (name : jsstring)
    (g : DataRef -> option jsstring) (d : DataRef) :
  calls_for name
    (copyLargeBlobsToRemote (Some ((fun d => set_hash (g d) d) <$> inputs)) upload).2
  = calls_for name (copyLargeBlobsToRemote (Some inputs) upload).2 /\
  dataRefToBlob (set_hash (g d) d) = dataRefToBlob d.
Proof.
  split; [|reflexivity].
  simpl. rewrite !run_calls_for, lookup_fmap.
  now destruct (inputs !! name).
Qed.

(** ** Buffers, text and the threshold *)

Module Base64Lengths.
Import Base64.


Lemma elem_of_remove_padding (c : N) (data : jsstring) :
  c ∈ data -> c <> pad -> c ∈ remove_padding data.
Proof.
  intros Hc Hne. unfold remove_padding.
  destruct (_ =? 0)%nat; [|exact Hc].
  assert (Hrev : c ∈ rev data)
    by (apply list_elem_of_In, in_rev; rewrite rev_involutive;
        now apply list_elem_of_In).
  assert (Hback : forall r : jsstring, c ∈ r -> c ∈ rev r)
    by (intros r Hr; now apply list_elem_of_In, in_rev, list_elem_of_In in Hr).
  destruct (rev data) as [|c1 r]; [exact Hc|].
  destruct (N.eqb_spec c1 pad) as [->|_]; [|exact Hc].
  apply elem_of_cons in Hrev as [?|Hr]; [contradiction|].
  destruct r as [|c2 r']; [exact (Hback _ Hr)|].
  destruct (N.eqb_spec c2 pad) as [->|_]; [|exact (Hback _ Hr)].
  apply elem_of_cons in Hr as [?|Hr']; [contradiction|].
  exact (Hback _ Hr').
Qed.

(** A character that is neither in the alphabet nor white space nor
    padding makes [atob] fail. *)
Lemma atob_rejects (c : N) (data : jsstring) :
  c ∈ data -> is_ascii_whitespace c = false -> c <> pad ->
  sextet_of_char c = None ->
  atob data = Threw InvalidCharacterError.
Proof.
  intros Hc Hws Hpad Hsx. unfold atob.
  destruct (_ =? 1)%nat; [reflexivity|].
  replace (mapM _ _) with (@None (list N)); [reflexivity|].
  symmetry. apply mapM_None. apply Exists_exists. exists c. split; [|exact Hsx].
  apply elem_of_remove_padding; [|exact Hpad].
  apply list_elem_of_filter. now split.
Qed.

End Base64Lengths.



(** X16.  Text of ASCII characters is converted character by character: the
    blob of a [utf8] reference has one byte per character, its code, and
    above 200 characters these are the bytes [copyLargeBlobsToRemote]
    uploads. *)
Theorem ascii_text_is_one_byte_per_character {rt : Runtime}
    (s : jsstring) (d : DataRef)
    (inputs : InputsRefs) (upload : UploadFunc) (name : jsstring) :
  Forall (fun c => c < 128) s ->
  value d = JStr s ->
  effective_type d = DataRefType.utf8 ->
  dataRefToBlob d = Returned {| blob_bytes := Unibabel.binaryStringToBuffer s |} /\
  Unibabel.bufferToBinaryString (Unibabel.binaryStringToBuffer s) = s /\
  (inputs !! name = Some d ->
   (ENV_VAR_DATA_ITEM_LENGTH_MAX < len s)%Z ->
   calls_for name (copyLargeBlobsToRemote (Some inputs) upload).2
   = [Unibabel.binaryStringToBuffer s]).
Proof.
  intros Hs Hv Ht.
  destruct (Utf8Facts.code_points_ascii s Hs) as [Hcp Henc].
  assert (Hdec : Unibabel.utf8ToBuffer s
                 = Returned (Unibabel.binaryStringToBuffer s)).
  { unfold Unibabel.utf8ToBuffer, Unibabel.utf8ToBinaryString.
    rewrite Hcp. simpl. now rewrite Henc. }
  split; [|split].
  - unfold dataRefToBlob. rewrite Ht, Hv. simpl. now rewrite Hdec.
  - apply UnibabelFacts.binary_string_of_its_buffer.
    eapply Forall_impl; [exact Hs|]. cbv beta. intros c Hc. lia.
  - intros Hd Hlen.
    assert (Hsw : uint8ArrayIfBig d = Returned (Some (Unibabel.binaryStringToBuffer s))).
    { rewrite (uint8ArrayIfBig_big d (len s)); [| |exact Hlen].
      - unfold decoded_bytes. rewrite Ht, Hv. simpl. now rewrite Hdec.
      - unfold inline_size. now rewrite Ht, Hv. }
    now destruct (offloaded_entry inputs upload name d _ Hd Hsw).
Qed.

Lemma ascii_text_is_one_byte_per_character_witness :
  @dataRefToBlob sample_runtime (inline DataRefType.utf8 (letters 201))
  = Returned {| blob_bytes := Unibabel.binaryStringToBuffer (letters 201) |} /\
  Unibabel.bufferToBinaryString (Unibabel.binaryStringToBuffer (letters 201))
  = letters 201 /\
  calls_for (js "b")
    (@copyLargeBlobsToRemote sample_runtime (Some scenario) sample_upload).2
  = [Unibabel.binaryStringToBuffer (letters 201)].
Proof.
  destruct (@ascii_text_is_one_byte_per_character sample_runtime (letters 201)
              (inline DataRefType.utf8 (letters 201)) scenario sample_upload (js "b"))
    as (Hblob & Hback & Hcalls); [|reflexivity|reflexivity|].
  - apply Forall_forall. intros c Hc. unfold letters in Hc.
    apply list_elem_of_In, repeat_spec in Hc as ->. reflexivity.
  - split; [exact Hblob|]. split; [exact Hback|].
    apply Hcalls; reflexivity.
Defined.

(** X17.  Text that is not base64 cannot become a blob: when the value of a
    [base64] reference contains a character that is neither in the base64
    alphabet nor white space nor [=], [dataRefToBlob] throws an
    [InvalidCharacterError]; as an entry longer than 200 it makes
    [copyLargeBlobsToRemote] fail without an upload for it. *)
Theorem malformed_base64_is_rejected {rt : Runtime}
    (s : jsstring) (c : N) (d : DataRef)
    (inputs : InputsRefs) (upload : UploadFunc) (name : jsstring) :
  c ∈ s ->
  Base64.is_ascii_whitespace c = false ->
  c <> Base64.pad ->
  Base64.sextet_of_char c = None ->
  value d = JStr s ->
  effective_type d = DataRefType.base64 ->
  dataRefToBlob d = Threw InvalidCharacterError /\
  (inputs !! name = Some d ->
   (ENV_VAR_DATA_ITEM_LENGTH_MAX < len s)%Z ->
   calls_for name (copyLargeBlobsToRemote (Some inputs) upload).2 = [] /\
   exists e, (copyLargeBlobsToRemote (Some inputs) upload).1 = Threw e).
Proof.
  intros Hc Hws Hpad Hsx Hv Ht.
  assert (Hdec : Unibabel.base64ToBuffer s = Threw InvalidCharacterError).
  { unfold Unibabel.base64ToBuffer.
    now rewrite (Base64Lengths.atob_rejects c s Hc Hws Hpad Hsx). }
  split.
  - unfold dataRefToBlob. rewrite Ht, Hv. simpl. now rewrite Hdec.
  - intros Hd Hlen.
    assert (Hsw : uint8ArrayIfBig d = Threw InvalidCharacterError).
    { rewrite (uint8ArrayIfBig_big d (len s)); [| |exact Hlen].
      - unfold decoded_bytes. rewrite Ht, Hv. simpl. now rewrite Hdec.
      - unfold inline_size. now rewrite Ht, Hv. }
    split.
    + simpl. rewrite run_calls_for, Hd. unfold requests. now rewrite Hsw.
    + apply (failed_entry inputs upload name d Hd). left. eauto.
Qed.

Lemma malformed_base64_is_rejected_witness :
  @dataRefToBlob sample_runtime (inline DataRefType.base64 long_url)
  = Threw InvalidCharacterError /\
  calls_for (js "m")
    (@copyLargeBlobsToRemote sample_runtime (Some malformed_scenario) sample_upload).2
  = [] /\
  exists e,
    (@copyLargeBlobsToRemote sample_runtime (Some malformed_scenario) sample_upload).1
    = Threw e.
Proof.
  destruct (@malformed_base64_is_rejected sample_runtime long_url 58
              (inline DataRefType.base64 long_url) malformed_scenario sample_upload
              (js "m")) as [Hblob Hcopy];
    [| reflexivity | discriminate | reflexivity | reflexivity | reflexivity |].
  - unfold long_url. apply list_elem_of_In, in_or_app. left.
    vm_compute. do 5 right. left. reflexivity.
  - split; [exact Hblob|]. apply Hcopy; reflexivity.
Defined.

(** X18.  Nothing else gets into the returned mapping: what it holds under
    a name is the object the input has under that name, when that is not too
    big, or the object an upload of that entry's bytes answered with.  That
    object has the value and the type it had before the call, and its hash
    is the one it had or the digest of the bytes of an entry of this call
    whose upload answered with it. *)
Theorem returned_entries_are_kept_or_uploaded {rt : Runtime}
    (es : ByReference.properties) (h : ByReference.store)
    (uploadFunc : ByReference.Upload) (r : ByReference.object)
    (name : jsstring) (v : nat) :
  ByReference.returned (ByReference.copyLargeBlobsToRemote (Some es) h uploadFunc)
  = Returned (Some r) ->
  ByReference.get r name = Some v ->
  (exists l d,
     (name, l) ∈ es /\ h !! l = Some d /\
     ((uint8ArrayIfBig d = Returned None /\ v = l) \/
      exists buf,
        uint8ArrayIfBig d = Returned (Some buf) /\
        uploadFunc buf = ByReference.Resolves v)) /\
  exists o o',
    h !! v = Some o /\
    ByReference.objects (ByReference.copyLargeBlobsToRemote (Some es) h uploadFunc)
      !! v = Some o' /\
    value o' = value o /\ type o' = type o /\
    (hash o' = hash o \/
     exists name2 l2 d2 buf2,
       (name2, l2) ∈ es /\ h !! l2 = Some d2 /\
       uint8ArrayIfBig d2 = Returned (Some buf2) /\
       uploadFunc buf2 = ByReference.Resolves v /\
       hash o' = Some (sha1 (JBytes buf2))).
Proof.
  intros Hr Hget.
  pose proof (ByReferenceFacts.call_returned es h uploadFunc) as Hcall.
  rewrite Hr in Hcall. destruct Hcall as [[= ->] _].
  apply ByReferenceFacts.get_assign_all_inv in Hget as [Hget|Hin].
  { unfold ByReference.get, ByReference.empty_object in Hget.
    cbn [ByReference.own ByReference.proto] in Hget.
    destruct (decide _); [discriminate | now rewrite lookup_empty in Hget]. }
  apply ByReferenceFacts.assignments_elem in Hin as (l & Hin & Hs).
  unfold ByReferenceTerms.settled in Hs. cbn [snd] in Hs.
  destruct (h !! l) as [d|] eqn:Hl; [|discriminate].
  assert (Hv : exists o, h !! v = Some o).
  { destruct (uint8ArrayIfBig d) as [[buf|]|e]; [| |discriminate].
    - destruct (uploadFunc buf) as [a| |]; try discriminate.
      destruct (h !! a) as [o|] eqn:Ha; [|discriminate]. injection Hs as <-. eauto.
    - injection Hs as <-. eauto. }
  split.
  - exists l, d. split; [assumption|]. split; [exact Hl|].
    destruct (uint8ArrayIfBig d) as [[buf|]|e]; [| |discriminate].
    + right. exists buf. split; [reflexivity|].
      destruct (uploadFunc buf) as [a| |]; try discriminate.
      destruct (h !! a); [|discriminate]. now injection Hs as <-.
    + left. now injection Hs as <-.
  - destruct Hv as [o Ho]. exists o.
    destruct (ByReferenceFacts.objects_after es h uploadFunc v o Ho)
      as (o' & Ho' & Hval & Hty & Hh).
    exists o'. now repeat split.
Qed.

Lemma returned_entries_are_kept_or_uploaded_witness :
  (exists l d,
     (js "q", l) ∈ two_big /\ sample_heap !! l = Some d /\
     ((@uint8ArrayIfBig sample_runtime d = Returned None /\ 9%nat = l) \/
      exists buf,
        @uint8ArrayIfBig sample_runtime d = Returned (Some buf) /\
        shared_upload buf = ByReference.Resolves 9%nat)) /\
  exists o o',
    sample_heap !! 9%nat = Some o /\
    ByReference.objects
      (@ByReference.copyLargeBlobsToRemote sample_runtime (Some two_big)
         sample_heap shared_upload) !! 9%nat = Some o' /\
    value o' = value o /\ type o' = type o /\
    (hash o' = hash o \/
     exists name2 l2 d2 buf2,
       (name2, l2) ∈ two_big /\ sample_heap !! l2 = Some d2 /\
       @uint8ArrayIfBig sample_runtime d2 = Returned (Some buf2) /\
       shared_upload buf2 = ByReference.Resolves 9%nat /\
       hash o' = Some (@sha1 sample_runtime (JBytes buf2))).
Proof.
  apply (@returned_entries_are_kept_or_uploaded sample_runtime two_big sample_heap
           shared_upload
           {| ByReference.own := <[js "p" := 9%nat]> {[ js "q" := 9%nat ]};
              ByReference.proto := None |}
           (js "q") 9%nat); vm_compute; reflexivity.
Defined.
